(** * CAMARA catalog service: search, ranking, pagination, detail lookup
      and comparison

    A shallow embedding of the catalog service (services/catalog.ts), of the
    comparison, detail, use-case and migration tool handlers
    (tools/register.ts) and of the literal catalog (constants.ts), followed
    by the properties the specification states about them and by further
    properties read off the code.

    Modelling conventions.
    - A JavaScript string is a [string] (a sequence of bytes); the catalog's
      letters are all ASCII.  [toLowerCase] is the ASCII case mapping, on
      which JavaScript's agrees for every ASCII string.
    - A JavaScript number that holds an integer is a [Z].
    - An optional argument ([query?: string]) is an [option]; the idiom
      [x && e] on an optional string is false both for [undefined] and for
      the empty string.
    - [Array.prototype.sort] is stable; it is modelled by a stable insertion
      sort driven by the comparator's sign.
    - [String.prototype.localeCompare] belongs to the host, not to the
      repository: the service is parametrised by it, and a model of the
      root collation used by the deployed runtime is given separately. *)

From Stdlib Require Import String Ascii List ZArith NArith Lia Bool.
From Stdlib Require Import Sorting.Sorted Sorting.Permutation.
From Stdlib Require DecimalString.
Import ListNotations.

Local Open Scope Z_scope.

(* ================================================================== *)
(** * JavaScript primitives used by the service *)
(* ================================================================== *)

Module JS.

(** [c.toLowerCase()] on one ASCII character. *)
Definition toLowerChar (c : ascii) : ascii :=
  let n := N_of_ascii c in
  if ((65 <=? n) && (n <=? 90))%N then ascii_of_N (n + 32) else c.

(** [s.toLowerCase()]. *)
Fixpoint toLowerCase (s : string) : string :=
  match s with
  | EmptyString => EmptyString
  | String c s' => String (toLowerChar c) (toLowerCase s')
  end.

(** [s.includes(q)]: [q] occurs in [s] at some position. *)
Fixpoint includes (s q : string) {struct s} : bool :=
  String.prefix q s
  || match s with
     | EmptyString => false
     | String _ s' => includes s' q
     end.

(** Truthiness of an optional string: [undefined] and [""] are falsy. *)
Definition truthy (o : option string) : bool :=
  match o with
  | Some s => negb (String.eqb s "")
  | None => false
  end.

(** [x && p(x)] for an optional string [x], read as a condition. *)
Definition andAlso (o : option string) (p : string -> bool) : bool :=
  match o with
  | Some s => negb (String.eqb s "") && p s
  | None => false
  end.

(** A parameter with a default value ([limit: number = 20]). *)
Definition orDefault (d : Z) (o : option Z) : Z :=
  match o with
  | Some n => n
  | None => d
  end.

(** Relative index of [Array.prototype.slice]: a negative index counts
    from the end, and the result is clamped into [0, len]. *)
Definition relativeIndex (len i : Z) : Z :=
  if i <? 0 then Z.max (len + i) 0 else Z.min i len.

(** [l.slice(start, end)]. *)
Definition slice {A : Type} (l : list A) (start end_ : Z) : list A :=
  let len := Z.of_nat (length l) in
  let k := relativeIndex len start in
  let final := relativeIndex len end_ in
  firstn (Z.to_nat (final - k)) (skipn (Z.to_nat k) l).

(** [l.sort(compareFn)]: stable; [compareFn a b <= 0] keeps [a] before
    [b]. *)
Section Sort.
Context {A : Type} (compareFn : A -> A -> Z).

Fixpoint insert (x : A) (l : list A) : list A :=
  match l with
  | [] => [x]
  | y :: l' => if compareFn x y <=? 0 then x :: l else y :: insert x l'
  end.

Definition sort (l : list A) : list A := fold_right insert [] l.
End Sort.

(** [l.filter(Boolean)] on an array of objects-or-null. *)
Fixpoint filterBoolean {A : Type} (l : list (option A)) : list A :=
  match l with
  | [] => []
  | Some x :: l' => x :: filterBoolean l'
  | None :: l' => filterBoolean l'
  end.

(** [l.join(sep)]. *)
Fixpoint join (sep : string) (l : list string) : string :=
  match l with
  | [] => EmptyString
  | [x] => x
  | x :: l' => (x ++ sep ++ join sep l')%string
  end.

(** [a || b] on numbers: [a] when it is non-zero, else [b]. *)
Definition orElse (a b : Z) : Z := if a =? 0 then b else a.

End JS.

(* ================================================================== *)
(** * Data model (constants.ts, types.ts) *)
(* ================================================================== *)

Inductive ApiStatus := Stable | Initial | Sandbox | Incubating.

Inductive ApiCategory :=
| AuthFraud | Location | Communication | CommunicationQuality
| DeviceInfo | Computing | Payments | Identity.

(** The string each enumeration member is at run time. *)
Definition statusId (s : ApiStatus) : string :=
  match s with
  | Stable => "stable"
  | Initial => "initial"
  | Sandbox => "sandbox"
  | Incubating => "incubating"
  end.

Definition categoryId (c : ApiCategory) : string :=
  match c with
  | AuthFraud => "auth-fraud"
  | Location => "location"
  | Communication => "communication"
  | CommunicationQuality => "communication-quality"
  | DeviceInfo => "device-info"
  | Computing => "computing"
  | Payments => "payments"
  | Identity => "identity"
  end.

Module CamaraApi.
Record t := {
  name : string;
  slug : string;
  category : ApiCategory;
  status : ApiStatus;
  description : string;
  useCases : list string;
  latestVersion : string;
  previousVersions : list string;
  repository : string;
  websiteUrl : string;
  specUrl : string;
  industries : list string;
  authFlow : string;
  httpMethods : list string;
  keyEndpoints : list string
}.
End CamaraApi.

Module InitialApi.
Record t := {
  name : string;
  slug : string;
  category : ApiCategory;
  version : string;
  repository : string;
  description : string
}.
End InitialApi.

(** [CamaraApi | InitialApi]. *)
Inductive Api :=
| OfStable (a : CamaraApi.t)
| OfInitial (a : InitialApi.t).

Definition apiName (api : Api) : string :=
  match api with
  | OfStable a => CamaraApi.name a
  | OfInitial a => InitialApi.name a
  end.

Definition apiSlug (api : Api) : string :=
  match api with
  | OfStable a => CamaraApi.slug a
  | OfInitial a => InitialApi.slug a
  end.

Definition apiCategory (api : Api) : ApiCategory :=
  match api with
  | OfStable a => CamaraApi.category a
  | OfInitial a => InitialApi.category a
  end.

Definition apiDescription (api : Api) : string :=
  match api with
  | OfStable a => CamaraApi.description a
  | OfInitial a => InitialApi.description a
  end.

Module ApiSearchResult.
Record t := {
  name : string;
  slug : string;
  category : string;
  status : string;
  version : string;
  description : string;
  repository_url : string;
  website_url : option string
}.
End ApiSearchResult.

Module ApiDetailResult.
Record t := {
  name : string;
  slug : string;
  category : string;
  status : string;
  description : string;
  latest_version : string;
  previous_versions : list string;
  repository_url : string;
  website_url : string;
  spec_url : string;
  industries : list string;
  auth_flow : string;
  http_methods : list string;
  key_endpoints : list string;
  use_cases : list string
}.
End ApiDetailResult.

Module PaginatedResponse.
Record t (T : Type) := {
  total : Z;
  count : Z;
  offset : Z;
  items : list T;
  has_more : bool;
  next_offset : option Z
}.
Arguments total {T} _.
Arguments count {T} _.
Arguments offset {T} _.
Arguments items {T} _.
Arguments has_more {T} _.
Arguments next_offset {T} _.
End PaginatedResponse.

(** An entry of the array that [searchApis] sorts. *)
Record Ranked := { score : Z; result : ApiSearchResult.t }.

Definition CAMARA_BASE_URL : string := "https://github.com/camaraproject".

(* ================================================================== *)
(** * The catalog service (services/catalog.ts) *)
(* ================================================================== *)

(** The body of [for (const e of entries) { if (...) { score += w; break; } }]:
    the first entry that contains [q] adds [weight] once and ends the loop. *)
Fixpoint scanEntries (entries : list string) (q : string) (weight score : Z) : Z :=
  match entries with
  | [] => score
  | e :: rest =>
      if JS.includes (JS.toLowerCase e) q then score + weight
      else scanEntries rest q weight score
  end.

Definition searchScore (api : Api) (query : string) : Z :=
  let q := JS.toLowerCase query in
  let score := 0 in
  let score :=
    if JS.includes (JS.toLowerCase (apiName api)) q then score + 10 else score in
  let score := if JS.includes (apiSlug api) q then score + 8 else score in
  let score :=
    if JS.includes (categoryId (apiCategory api)) q then score + 5 else score in
  let score :=
    if JS.includes (JS.toLowerCase (apiDescription api)) q then score + 3
    else score in
  let score :=
    match api with
    | OfStable a => scanEntries (CamaraApi.useCases a) q 2 score
    | OfInitial _ => score
    end in
  let score :=
    match api with
    | OfStable a => scanEntries (CamaraApi.industries a) q 4 score
    | OfInitial _ => score
    end in
  score.

(** [query ? searchScore(api, query) : 0]. *)
Definition scoreOf (query : option string) (api : Api) : Z :=
  match query with
  | Some q => if String.eqb q "" then 0 else searchScore api q
  | None => 0
  end.

(** The predicate given to [STABLE_APIS.filter]. *)
Definition keepStable (query category status : option string)
    (api : CamaraApi.t) : bool :=
  if JS.andAlso category
       (fun c => negb (String.eqb (categoryId (CamaraApi.category api)) c))
  then false
  else if JS.andAlso status
            (fun s => negb (String.eqb (statusId (CamaraApi.status api)) s))
  then false
  else if JS.andAlso query (fun q => searchScore (OfStable api) q =? 0)
  then false
  else true.

(** The predicate given to [INITIAL_APIS.filter]. *)
Definition keepInitial (query category status : option string)
    (api : InitialApi.t) : bool :=
  if JS.andAlso category
       (fun c => negb (String.eqb (categoryId (InitialApi.category api)) c))
  then false
  else if match status with
          | Some s => String.eqb s "stable"
          | None => false
          end
  then false
  else if JS.andAlso status (fun s => negb (String.eqb s "initial"))
  then false
  else if JS.andAlso query (fun q => searchScore (OfInitial api) q =? 0)
  then false
  else true.

Definition toSearchResult (api : CamaraApi.t) : ApiSearchResult.t :=
  {| ApiSearchResult.name := CamaraApi.name api;
     ApiSearchResult.slug := CamaraApi.slug api;
     ApiSearchResult.category := categoryId (CamaraApi.category api);
     ApiSearchResult.status := statusId (CamaraApi.status api);
     ApiSearchResult.version := CamaraApi.latestVersion api;
     ApiSearchResult.description := CamaraApi.description api;
     ApiSearchResult.repository_url := CamaraApi.specUrl api;
     ApiSearchResult.website_url := Some (CamaraApi.websiteUrl api) |}.

Definition initialToSearchResult (api : InitialApi.t) : ApiSearchResult.t :=
  {| ApiSearchResult.name := InitialApi.name api;
     ApiSearchResult.slug := InitialApi.slug api;
     ApiSearchResult.category := categoryId (InitialApi.category api);
     ApiSearchResult.status := "initial";
     ApiSearchResult.version := InitialApi.version api;
     ApiSearchResult.description := InitialApi.description api;
     ApiSearchResult.repository_url :=
       (CAMARA_BASE_URL ++ "/" ++ InitialApi.repository api)%string;
     ApiSearchResult.website_url := None |}.

Definition toDetailResult (api : CamaraApi.t) : ApiDetailResult.t :=
  {| ApiDetailResult.name := CamaraApi.name api;
     ApiDetailResult.slug := CamaraApi.slug api;
     ApiDetailResult.category := categoryId (CamaraApi.category api);
     ApiDetailResult.status := statusId (CamaraApi.status api);
     ApiDetailResult.description := CamaraApi.description api;
     ApiDetailResult.latest_version := CamaraApi.latestVersion api;
     ApiDetailResult.previous_versions := CamaraApi.previousVersions api;
     ApiDetailResult.repository_url := CamaraApi.specUrl api;
     ApiDetailResult.website_url := CamaraApi.websiteUrl api;
     ApiDetailResult.spec_url := CamaraApi.specUrl api;
     ApiDetailResult.industries := CamaraApi.industries api;
     ApiDetailResult.auth_flow := CamaraApi.authFlow api;
     ApiDetailResult.http_methods := CamaraApi.httpMethods api;
     ApiDetailResult.key_endpoints := CamaraApi.keyEndpoints api;
     ApiDetailResult.use_cases := CamaraApi.useCases api |}.

(** What the comparison tool hands back: [errorResult(message)], or the
    detail projections that both renderings (JSON and markdown table) are
    produced from. *)
Inductive CompareOutcome :=
| ErrorResult (text : string)
| Comparison (details : list ApiDetailResult.t).

Definition errorResult (message : string) : CompareOutcome :=
  ErrorResult ("Error: " ++ message)%string.

Section CatalogService.

(** The module-level catalog and the host's string collation. *)
Variable STABLE_APIS : list CamaraApi.t.
Variable INITIAL_APIS : list InitialApi.t.
Variable localeCompare : string -> string -> Z.

Definition stableResults (query category status : option string)
    : list (CamaraApi.t * Z) :=
  map (fun api => (api, scoreOf query (OfStable api)))
      (filter (keepStable query category status) STABLE_APIS).

Definition initialResults (query category status : option string)
    : list (InitialApi.t * Z) :=
  map (fun api => (api, scoreOf query (OfInitial api)))
      (filter (keepInitial query category status) INITIAL_APIS).

(** [(a, b) => b.score - a.score || a.result.name.localeCompare(b.result.name)] *)
Definition compareRanked (a b : Ranked) : Z :=
  JS.orElse (score b - score a)
    (localeCompare (ApiSearchResult.name (result a))
                   (ApiSearchResult.name (result b))).

(** The array literal handed to [sort]: the stable results, then the
    initial ones. *)
Definition candidates (query category status : option string) : list Ranked :=
  map (fun r => {| score := snd r; result := toSearchResult (fst r) |})
      (stableResults query category status)
  ++ map (fun r => {| score := snd r;
                      result := initialToSearchResult (fst r) |})
         (initialResults query category status).

(** The sorted array [combined]. *)
Definition combined (query category status : option string) : list Ranked :=
  JS.sort compareRanked (candidates query category status).

(** The array [paged]: [combined.slice(offset, offset + limit)]. *)
Definition paged (query category status : option string)
    (limit offset : option Z) : list Ranked :=
  let limit := JS.orDefault 20 limit in
  let offset := JS.orDefault 0 offset in
  JS.slice (combined query category status) offset (offset + limit).

Definition searchApis (query category status : option string)
    (limit offset : option Z) : PaginatedResponse.t ApiSearchResult.t :=
  let combined := combined query category status in
  let total := Z.of_nat (length combined) in
  let paged := paged query category status limit offset in
  let offset := JS.orDefault 0 offset in
  let count := Z.of_nat (length paged) in
  {| PaginatedResponse.total := total;
     PaginatedResponse.count := count;
     PaginatedResponse.offset := offset;
     PaginatedResponse.items := map result paged;
     PaginatedResponse.has_more := offset + count <? total;
     PaginatedResponse.next_offset :=
       if offset + count <? total then Some (offset + count) else None |}.

Definition getApiDetail (slug : string) : option ApiDetailResult.t :=
  match find (fun a => String.eqb (CamaraApi.slug a) slug) STABLE_APIS with
  | None => None
  | Some api => Some (toDetailResult api)
  end.

(** The handler of the [camara_compare_apis] tool (tools/register.ts). *)
Definition camara_compare_apis (slugs : list string) : CompareOutcome :=
  let details := JS.filterBoolean (map getApiDetail slugs) in
  if Z.of_nat (length details) <? 2 then
    let validSlugs := JS.join ", " (map CamaraApi.slug STABLE_APIS) in
    errorResult
      ("Need at least 2 valid stable API slugs. Valid: " ++ validSlugs)%string
  else Comparison details.

End CatalogService.

(* ================================================================== *)
(** * The literal catalog (constants.ts, meta-release Fall25) *)
(* ================================================================== *)

Module Fall25.
Local Open Scope string_scope.

Definition number_verification : CamaraApi.t :=
{| CamaraApi.name := "Number Verification";
   CamaraApi.slug := "number-verification";
   CamaraApi.category := AuthFraud;
   CamaraApi.status := Stable;
   CamaraApi.description :=
     "Confirms ownership of a mobile phone number by matching it against the network-authenticated identity. Eliminates SMS OTP friction. Two mechanisms: network-based (operator knows subscriber) and SIM-based (subscriber SIM authentication).";
   CamaraApi.useCases :=
     ["Account creation with phone number verification";
      "Secure login without SMS OTP";
      "Transaction validation for banking/fintech";
      "Account recovery and device migration";
      "Anti-fraud: prevent SIM swap account takeover"];
   CamaraApi.latestVersion := "2.1.0";
   CamaraApi.previousVersions := ["2.0.0"; "1.0.0"];
   CamaraApi.repository := "NumberVerification";
   CamaraApi.websiteUrl := "https://camaraproject.org/number-verification/";
   CamaraApi.specUrl := CAMARA_BASE_URL ++ "/NumberVerification";
   CamaraApi.industries := ["Banking"; "E-Commerce"; "Healthcare"; "Insurance"; "Fintech"];
   CamaraApi.authFlow := "OIDC Authorization Code Flow (3-legged)";
   CamaraApi.httpMethods := ["POST"];
   CamaraApi.keyEndpoints :=
     ["POST /number-verifications/v2/verify - Verify phone number ownership";
      "POST /number-verifications/v2/device-phone-number - Retrieve device phone number"] |}.

Definition sim_swap : CamaraApi.t :=
{| CamaraApi.name := "SIM Swap";
   CamaraApi.slug := "sim-swap";
   CamaraApi.category := AuthFraud;
   CamaraApi.status := Stable;
   CamaraApi.description :=
     "Detects whether a SIM card swap has occurred on a mobile line within a specified time window. Returns boolean or timestamp of last swap. Critical for fraud prevention in financial services.";
   CamaraApi.useCases :=
     ["Fraud detection during high-value transactions";
      "Account takeover prevention";
      "KYC enhancement for onboarding";
      "Insurance claim validation";
      "Risk scoring for lending decisions"];
   CamaraApi.latestVersion := "2.1.0";
   CamaraApi.previousVersions := ["2.0.0"; "1.0.0"];
   CamaraApi.repository := "SimSwap";
   CamaraApi.websiteUrl := "https://camaraproject.org/sim-swap/";
   CamaraApi.specUrl := CAMARA_BASE_URL ++ "/SimSwap";
   CamaraApi.industries := ["Banking"; "Fintech"; "Insurance"; "Payments"];
   CamaraApi.authFlow := "OIDC Client Credentials (2-legged) or Authorization Code (3-legged)";
   CamaraApi.httpMethods := ["POST"];
   CamaraApi.keyEndpoints :=
     ["POST /sim-swap/v2/check - Check if SIM swap occurred in time window";
      "POST /sim-swap/v2/retrieve-date - Get date of last SIM swap"] |}.

Definition location_verification : CamaraApi.t :=
{| CamaraApi.name := "Location Verification";
   CamaraApi.slug := "location-verification";
   CamaraApi.category := Location;
   CamaraApi.status := Stable;
   CamaraApi.description :=
     "Determines whether a mobile device is within the proximity of a specified geographical area (circle with lat/lng center and radius). Network-based location verification without requiring device-side GPS permissions.";
   CamaraApi.useCases :=
     ["Fraud prevention for location-dependent banking transactions";
      "Insurance claim geolocation validation";
      "Age-gated content delivery verification";
      "Logistics and delivery confirmation";
      "Regulatory compliance (geo-restriction enforcement)"];
   CamaraApi.latestVersion := "3.0.0";
   CamaraApi.previousVersions := ["2.0.0"; "1.0.0"];
   CamaraApi.repository := "DeviceLocation";
   CamaraApi.websiteUrl := "https://camaraproject.org/location-verification/";
   CamaraApi.specUrl := CAMARA_BASE_URL ++ "/DeviceLocation";
   CamaraApi.industries := ["Banking"; "Insurance"; "Logistics"; "Retail"; "Government"];
   CamaraApi.authFlow := "OIDC Authorization Code Flow (3-legged)";
   CamaraApi.httpMethods := ["POST"];
   CamaraApi.keyEndpoints :=
     ["POST /location-verification/v3/verify - Verify device is within area"] |}.

Definition device_reachability_status : CamaraApi.t :=
{| CamaraApi.name := "Device Reachability Status";
   CamaraApi.slug := "device-reachability-status";
   CamaraApi.category := DeviceInfo;
   CamaraApi.status := Stable;
   CamaraApi.description :=
     "Checks whether a mobile device is currently reachable on the network (connected, not connected, or SMS-only). Supports event subscriptions for status change notifications.";
   CamaraApi.useCases :=
     ["IoT device monitoring and health checks";
      "Optimizing push notification delivery";
      "Customer engagement timing";
      "Service level agreement monitoring";
      "Emergency communications readiness"];
   CamaraApi.latestVersion := "1.1.0";
   CamaraApi.previousVersions := ["1.0.0"; "0.6.1"];
   CamaraApi.repository := "DeviceReachabilityStatus";
   CamaraApi.websiteUrl := "https://camaraproject.org/device-reachability-status/";
   CamaraApi.specUrl := CAMARA_BASE_URL ++ "/DeviceReachabilityStatus";
   CamaraApi.industries := ["IoT"; "Telecom"; "Logistics"; "Healthcare"];
   CamaraApi.authFlow := "OIDC Client Credentials (2-legged)";
   CamaraApi.httpMethods := ["POST"];
   CamaraApi.keyEndpoints :=
     ["POST /device-reachability-status/v1/retrieve - Get current reachability status"] |}.

Definition device_roaming_status : CamaraApi.t :=
{| CamaraApi.name := "Device Roaming Status";
   CamaraApi.slug := "device-roaming-status";
   CamaraApi.category := DeviceInfo;
   CamaraApi.status := Stable;
   CamaraApi.description :=
     "Determines whether a mobile device is currently roaming and, if so, in which country. Supports event subscriptions for roaming status changes.";
   CamaraApi.useCases :=
     ["Personalized pricing based on roaming status";
      "Compliance with data sovereignty requirements";
      "Travel insurance activation";
      "Fraud detection (unexpected roaming)";
      "Content and service adaptation by region"];
   CamaraApi.latestVersion := "1.1.0";
   CamaraApi.previousVersions := ["1.0.0"; "0.6.1"];
   CamaraApi.repository := "DeviceRoamingStatus";
   CamaraApi.websiteUrl := "https://camaraproject.org/device-roaming-status/";
   CamaraApi.specUrl := CAMARA_BASE_URL ++ "/DeviceRoamingStatus";
   CamaraApi.industries := ["Travel"; "Insurance"; "Banking"; "Telecom"];
   CamaraApi.authFlow := "OIDC Client Credentials (2-legged)";
   CamaraApi.httpMethods := ["POST"];
   CamaraApi.keyEndpoints :=
     ["POST /device-roaming-status/v1/retrieve - Get current roaming status"] |}.

Definition one_time_password_sms : CamaraApi.t :=
{| CamaraApi.name := "One-Time Password SMS";
   CamaraApi.slug := "one-time-password-sms";
   CamaraApi.category := AuthFraud;
   CamaraApi.status := Stable;
   CamaraApi.description :=
     "Sends short-lived OTPs to a phone number via SMS and validates them. Network-based delivery without relying on third-party SMS aggregators. Operator-grade delivery assurance.";
   CamaraApi.useCases :=
     ["Two-factor authentication";
      "Account recovery verification";
      "Transaction confirmation";
      "Secure sign-up flows";
      "Passwordless authentication"];
   CamaraApi.latestVersion := "1.1.1";
   CamaraApi.previousVersions := ["1.1.0"; "1.0.0"];
   CamaraApi.repository := "OTPValidation";
   CamaraApi.websiteUrl := "https://camaraproject.org/one-time-password-sms/";
   CamaraApi.specUrl := CAMARA_BASE_URL ++ "/OTPValidation";
   CamaraApi.industries := ["Banking"; "E-Commerce"; "Healthcare"; "SaaS"];
   CamaraApi.authFlow := "OIDC Client Credentials (2-legged)";
   CamaraApi.httpMethods := ["POST"];
   CamaraApi.keyEndpoints :=
     ["POST /otp/v1/send-code - Send OTP to phone number";
      "POST /otp/v1/validate-code - Validate received OTP"] |}.

Definition quality_on_demand : CamaraApi.t :=
{| CamaraApi.name := "Quality on Demand";
   CamaraApi.slug := "quality-on-demand";
   CamaraApi.category := CommunicationQuality;
   CamaraApi.status := Stable;
   CamaraApi.description :=
     "Request and manage specific network quality (bandwidth, latency) for a device session. Enables premium network performance for latency-sensitive applications like gaming, video, and AR/VR.";
   CamaraApi.useCases :=
     ["Cloud gaming session quality guarantee";
      "Video conferencing quality boost";
      "AR/VR experience optimization";
      "Live streaming priority bandwidth";
      "Industrial IoT critical communications"];
   CamaraApi.latestVersion := "1.1.0";
   CamaraApi.previousVersions := ["1.0.0"; "0.11.1"];
   CamaraApi.repository := "QualityOnDemand";
   CamaraApi.websiteUrl := "https://camaraproject.org/quality-on-demand/";
   CamaraApi.specUrl := CAMARA_BASE_URL ++ "/QualityOnDemand";
   CamaraApi.industries := ["Gaming"; "Media"; "AR/VR"; "Enterprise"; "IoT"];
   CamaraApi.authFlow := "OIDC Client Credentials (2-legged) or Authorization Code (3-legged)";
   CamaraApi.httpMethods := ["POST"; "GET"; "DELETE"];
   CamaraApi.keyEndpoints :=
     ["POST /qod/v1/sessions - Create QoS session";
      "GET /qod/v1/sessions/{sessionId} - Get session status";
      "DELETE /qod/v1/sessions/{sessionId} - Terminate session"] |}.

Definition qos_profiles : CamaraApi.t :=
{| CamaraApi.name := "QoS Profiles";
   CamaraApi.slug := "qos-profiles";
   CamaraApi.category := CommunicationQuality;
   CamaraApi.status := Stable;
   CamaraApi.description :=
     "Discover available Quality of Service profiles offered by a network operator. Profiles define bandwidth, latency, and jitter parameters that can be requested via the Quality on Demand API.";
   CamaraApi.useCases :=
     ["Service catalog discovery";
      "Dynamic QoS profile selection";
      "Network capability assessment";
      "SLA-based service provisioning"];
   CamaraApi.latestVersion := "1.1.0";
   CamaraApi.previousVersions := ["1.0.0"; "0.11.1"];
   CamaraApi.repository := "QualityOnDemand";
   CamaraApi.websiteUrl := "https://camaraproject.org/qos-profiles/";
   CamaraApi.specUrl := CAMARA_BASE_URL ++ "/QualityOnDemand";
   CamaraApi.industries := ["Gaming"; "Media"; "Enterprise"; "IoT"];
   CamaraApi.authFlow := "OIDC Client Credentials (2-legged)";
   CamaraApi.httpMethods := ["GET"];
   CamaraApi.keyEndpoints :=
     ["GET /qos-profiles/v1 - List available QoS profiles";
      "GET /qos-profiles/v1/{profileId} - Get profile details"] |}.

Definition simple_edge_discovery : CamaraApi.t :=
{| CamaraApi.name := "Simple Edge Discovery";
   CamaraApi.slug := "simple-edge-discovery";
   CamaraApi.category := Computing;
   CamaraApi.status := Stable;
   CamaraApi.description :=
     "Discover optimal Multi-access Edge Computing (MEC) endpoints closest to a user's device. Enables low-latency edge deployment for applications requiring proximity computing.";
   CamaraApi.useCases :=
     ["Edge application deployment optimization";
      "Latency-sensitive workload placement";
      "CDN edge node selection";
      "Mobile gaming server selection";
      "AR/VR edge rendering"];
   CamaraApi.latestVersion := "2.0.0";
   CamaraApi.previousVersions := ["1.0.0"];
   CamaraApi.repository := "SimpleEdgeDiscovery";
   CamaraApi.websiteUrl := "https://camaraproject.org/simple-edge-discovery/";
   CamaraApi.specUrl := CAMARA_BASE_URL ++ "/SimpleEdgeDiscovery";
   CamaraApi.industries := ["Gaming"; "AR/VR"; "CDN"; "Cloud"; "IoT"];
   CamaraApi.authFlow := "OIDC Client Credentials (2-legged)";
   CamaraApi.httpMethods := ["GET"];
   CamaraApi.keyEndpoints :=
     ["GET /edge-discovery/v2/mec-platforms - Discover nearest MEC platforms"] |}.

Definition device_swap : CamaraApi.t :=
{| CamaraApi.name := "Device Swap";
   CamaraApi.slug := "device-swap";
   CamaraApi.category := DeviceInfo;
   CamaraApi.status := Stable;
   CamaraApi.description :=
     "Detects whether the physical device (IMEI) associated with a mobile subscription has changed. Similar to SIM Swap but tracks the hardware device rather than the SIM card.";
   CamaraApi.useCases :=
     ["Fraud detection (unexpected device changes)";
      "Device financing risk management";
      "Insurance claim validation";
      "Account security monitoring";
      "Customer lifecycle management"];
   CamaraApi.latestVersion := "1.0.0";
   CamaraApi.previousVersions := ["0.2.0"];
   CamaraApi.repository := "DeviceSwap";
   CamaraApi.websiteUrl := "https://camaraproject.org/device-swap/";
   CamaraApi.specUrl := CAMARA_BASE_URL ++ "/DeviceSwap";
   CamaraApi.industries := ["Banking"; "Insurance"; "Device Finance"; "Telecom"];
   CamaraApi.authFlow := "OIDC Client Credentials (2-legged) or Authorization Code (3-legged)";
   CamaraApi.httpMethods := ["POST"];
   CamaraApi.keyEndpoints :=
     ["POST /device-swap/v1/check - Check if device swap occurred";
      "POST /device-swap/v1/retrieve-date - Get date of last device swap"] |}.

Definition STABLE_APIS : list CamaraApi.t :=
[number_verification; sim_swap; location_verification; device_reachability_status; device_roaming_status;
 one_time_password_sms; quality_on_demand; qos_profiles; simple_edge_discovery; device_swap].

Definition initialApi (name slug : string) (category : ApiCategory)
  (version repository description : string) : InitialApi.t :=
{| InitialApi.name := name; InitialApi.slug := slug;
   InitialApi.category := category; InitialApi.version := version;
   InitialApi.repository := repository;
   InitialApi.description := description |}.

Definition INITIAL_APIS : list InitialApi.t :=
[ initialApi "Application Profiles" "application-profiles" CommunicationQuality "0.5.0" "ApplicationProfiles"
    "Define and manage application requirements for network service optimization.";
  initialApi "Call Forwarding Signal" "call-forwarding-signal" AuthFraud "0.4.0" "CallForwardingSignal"
    "Detect if a phone number has call forwarding enabled — fraud prevention signal.";
  initialApi "Carrier Billing" "carrier-billing" Payments "0.5.0" "CarrierBillingCheckOut"
    "Charge digital content purchases to the mobile subscriber's bill.";
  initialApi "Connectivity Insights" "connectivity-insights" CommunicationQuality "0.5.0" "ConnectivityInsights"
    "Network quality predictions and monitoring for application sessions.";
  initialApi "Customer Insights" "customer-insights" Identity "0.2.0" "CustomerInsights"
    "Anonymized aggregate insights about customer segments.";
  initialApi "Device Identifier" "device-identifier" DeviceInfo "0.3.0" "DeviceIdentifier"
    "Retrieve device model information (TAC/IMEI) for the authenticated subscriber.";
  initialApi "Geofencing Subscriptions" "geofencing-subscriptions" Location "0.4.0" "DeviceLocation"
    "Subscribe to notifications when a device enters or exits a defined geographical area.";
  initialApi "KYC Age Verification" "kyc-age-verification" Identity "0.2.0" "KnowYourCustomerAgeVerification"
    "Verify if a subscriber meets a minimum age threshold without revealing actual age.";
  initialApi "KYC Fill-In" "kyc-fill-in" Identity "0.4.0" "KnowYourCustomerFill-in"
    "Auto-fill customer identity data from operator records for onboarding.";
  initialApi "KYC Match" "kyc-match" Identity "0.5.0" "KnowYourCustomer"
    "Verify customer-provided identity attributes against operator records.";
  initialApi "KYC Tenure" "kyc-tenure" Identity "0.2.0" "Tenure"
    "Verify the length of tenure for a subscriber with their current operator.";
  initialApi "Location Retrieval" "location-retrieval" Location "0.5.0" "DeviceLocation"
    "Retrieve the approximate location of a mobile device from the network.";
  initialApi "Number Recycling" "number-recycling" AuthFraud "0.2.0" "NumberRecycling"
    "Detect if a phone number has been reassigned to a new subscriber.";
  initialApi "Population Density Data" "population-density-data" Location "0.4.0" "PopulationDensityData"
    "Anonymized population density estimates based on network data.";
  initialApi "Region Device Count" "region-device-count" Location "0.2.0" "RegionDeviceCount"
    "Count of devices in a defined geographical region.";
  initialApi "Scam Signal" "scam-signal" AuthFraud "0.3.1" "ScamSignal"
    "Real-time scam call detection signals for fraud prevention.";
  initialApi "Verified Caller" "verified-caller" AuthFraud "0.2.0" "VerifiedCaller"
    "Prove caller authenticity to eliminate phone scams and spoofing.";
  initialApi "WebRTC" "webrtc" Communication "0.1.0" "WebRTC"
    "Browser-based real-time communication with network quality integration.";
  initialApi "SMS" "sms" Communication "0.1.0" "ShortMessageService"
    "Send and receive SMS messages through standardized API.";
  initialApi "Connected Network Type" "connected-network-type" DeviceInfo "0.1.0" "DeviceStatus"
    "Identify the network technology (4G/5G/WiFi) a device is connected to.";
  initialApi "Blockchain Public Address" "blockchain-public-address" Identity "0.1.0" "BlockchainPublicAddress"
    "Associate blockchain wallet addresses with mobile identities." ].

End Fall25.

(* ================================================================== *)
(** * A model of the host's [localeCompare] *)
(* ================================================================== *)

(** The deployed runtime compares strings with the root collation of its
    internationalisation library, at its default strength.  On ASCII text
    that comparison is: first by primary weight, character by character,
    where control characters carry no weight, white space and punctuation
    come before digits, digits before letters, and a letter has the same
    primary weight in both cases; then, between strings whose primary
    weights agree, by case, lower case first.  Both levels are read off one
    sort key: the primary weights, a separator lower than all of them, then
    the case weights.  The catalog's names are made of letters, spaces
    and hyphens only; bytes outside ASCII do not occur in them, and the
    model places such bytes after the letters, in byte order. *)
Module RootCollation.

(** White space, punctuation and symbols in root-collation order:
    TAB LF VT FF CR SPACE _ - , ; : ! ? . ' QUOTE ( ) [ ] { } @ * / \ & # %
    ` ^ + < = > | ~ $ *)
Definition variableOrder : list N :=
  [9; 10; 11; 12; 13; 32; 95; 45; 44; 59; 58; 33; 63; 46; 39; 34; 40; 41;
   91; 93; 123; 125; 64; 42; 47; 92; 38; 35; 37; 96; 94; 43; 60; 61; 62;
   124; 126; 36]%N.

Fixpoint indexOf (n : N) (l : list N) (i : N) : option N :=
  match l with
  | [] => None
  | m :: l' => if (n =? m)%N then Some i else indexOf n l' (i + 1)%N
  end.

Definition isUpper (n : N) : bool := ((65 <=? n) && (n <=? 90))%N.
Definition isLower (n : N) : bool := ((97 <=? n) && (n <=? 122))%N.
Definition isDigit (n : N) : bool := ((48 <=? n) && (n <=? 57))%N.

(** [None]: the character is ignored by the comparison. *)
Definition primaryWeight (c : ascii) : option N :=
  let n := N_of_ascii c in
  if isUpper n then Some (70 + (n - 65))%N
  else if isLower n then Some (70 + (n - 97))%N
  else if isDigit n then Some (50 + (n - 48))%N
  else if (128 <=? n)%N then Some (100 + n)%N
  else indexOf n variableOrder 2%N.

Definition tertiaryWeight (c : ascii) : N :=
  if isUpper (N_of_ascii c) then 3%N else 2%N.

Fixpoint primaries (s : string) : list N :=
  match s with
  | EmptyString => []
  | String c s' =>
      match primaryWeight c with
      | Some w => w :: primaries s'
      | None => primaries s'
      end
  end.

Fixpoint tertiaries (s : string) : list N :=
  match s with
  | EmptyString => []
  | String c s' =>
      match primaryWeight c with
      | Some _ => tertiaryWeight c :: tertiaries s'
      | None => tertiaries s'
      end
  end.

Definition sortKey (s : string) : list N :=
  primaries s ++ 1%N :: tertiaries s.

Fixpoint compareKeys (a b : list N) : comparison :=
  match a, b with
  | [], [] => Eq
  | [], _ :: _ => Lt
  | _ :: _, [] => Gt
  | x :: a', y :: b' =>
      match (x ?= y)%N with
      | Eq => compareKeys a' b'
      | c => c
      end
  end.

Definition localeCompare (a b : string) : Z :=
  match compareKeys (sortKey a) (sortKey b) with
  | Lt => -1
  | Eq => 0
  | Gt => 1
  end.

End RootCollation.

(** The service as deployed: the literal catalog, the root collation. *)
Module Deployed.

Definition searchApis :=
  searchApis Fall25.STABLE_APIS Fall25.INITIAL_APIS
    RootCollation.localeCompare.

Definition combined :=
  combined Fall25.STABLE_APIS Fall25.INITIAL_APIS
    RootCollation.localeCompare.

Definition paged :=
  paged Fall25.STABLE_APIS Fall25.INITIAL_APIS RootCollation.localeCompare.

Definition getApiDetail := getApiDetail Fall25.STABLE_APIS.

Definition camara_compare_apis := camara_compare_apis Fall25.STABLE_APIS.

End Deployed.

(* ================================================================== *)
(** * Vocabulary of the specification *)
(* ================================================================== *)

(** [text] contains [query], case-insensitively: the lower-cased query
    occurs somewhere in the lower-cased text. *)
Definition containsCI (text query : string) : Prop :=
  exists pre post,
    JS.toLowerCase text = (pre ++ JS.toLowerCase query ++ post)%string.

(** A field's contribution [n] to the score: [weight] on a hit, else 0. *)
Definition contributes (weight : Z) (hit : Prop) (n : Z) : Prop :=
  (hit /\ n = weight) \/ (~ hit /\ n = 0).

(** Data model: a slug is a lower-case identifier. *)
Definition lowercaseSlug (api : Api) : Prop :=
  JS.toLowerCase (apiSlug api) = apiSlug api.

(** The maturity of a record: the status field of a stable-variant record,
    ["initial"] for an initial-variant one. *)
Definition maturity (api : Api) : string :=
  match api with
  | OfStable a => statusId (CamaraApi.status a)
  | OfInitial _ => "initial"
  end.

(** What a record looks like in a search response. *)
Definition project (api : Api) : ApiSearchResult.t :=
  match api with
  | OfStable a => toSearchResult a
  | OfInitial a => initialToSearchResult a
  end.

(** A filter argument is absent when it is [undefined] or empty. *)
Definition absent (o : option string) : Prop := JS.truthy o = false.

Definition passesCategory (category : option string) (api : Api) : Prop :=
  absent category \/ category = Some (categoryId (apiCategory api)).

Definition passesStatus (status : option string) (api : Api) : Prop :=
  absent status \/ status = Some (maturity api).

(** The order the service sorts by: score descending, then name ascending
    under the comparison [cmp]. *)
Definition rankedBefore (cmp : string -> string -> Z) (a b : Ranked) : Prop :=
  score b < score a
  \/ (score a = score b
      /\ cmp (ApiSearchResult.name (result a)) (ApiSearchResult.name (result b))
         <= 0).

(** Case-sensitive ordinal comparison of two strings, as a comparator. *)
Definition ordinalCompare (a b : string) : Z :=
  match String.compare a b with
  | Lt => -1
  | Eq => 0
  | Gt => 1
  end.

(** A comparator that [Array.prototype.sort] can rely on. *)
Definition consistentComparator (cmp : string -> string -> Z) : Prop :=
  (forall a b, cmp a b <= 0 \/ cmp b a <= 0)
  /\ (forall a b c, cmp a b <= 0 -> cmp b c <= 0 -> cmp a c <= 0).

(** Two elements between which the comparator does not decide. *)
Definition tied {A : Type} (compareFn : A -> A -> Z) (x y : A) : bool :=
  (compareFn x y <=? 0) && (compareFn y x <=? 0).

(** What any conforming [Array.prototype.sort] returns: the elements in
    the comparator's order, tied elements in their original order. *)
Definition stableSortOf {A : Type} (compareFn : A -> A -> Z)
    (input output : list A) : Prop :=
  StronglySorted (fun a b => compareFn a b <= 0) output
  /\ forall x, filter (tied compareFn x) output
               = filter (tied compareFn x) input.

(** The contract's ranges for [limit] and [offset]. *)
Definition clampLimit (limit : Z) : Z := Z.max 1 (Z.min 100 limit).
Definition clampOffset (offset : Z) : Z := Z.max 0 offset.

(** The records of the catalog that survive the service's two filters. *)
Definition kept (stable : list CamaraApi.t) (initial : list InitialApi.t)
    (query category status : option string) (api : Api) : Prop :=
  match api with
  | OfStable a => In a stable /\ keepStable query category status a = true
  | OfInitial a => In a initial /\ keepInitial query category status a = true
  end.

(** The record belongs to the catalog. *)
Definition inCatalog (stable : list CamaraApi.t) (initial : list InitialApi.t)
    (api : Api) : Prop :=
  match api with
  | OfStable a => In a stable
  | OfInitial a => In a initial
  end.

(** The record passes both filters and scores above zero for [q]. *)
Definition matches (stable : list CamaraApi.t) (initial : list InitialApi.t)
    (q : string) (category status : option string) (api : Api) : Prop :=
  inCatalog stable initial api
  /\ passesCategory category api
  /\ passesStatus status api
  /\ 0 < searchScore api q.

(** Data model: no two records of the catalog share a slug. *)
Definition uniqueSlugs (stable : list CamaraApi.t)
    (initial : list InitialApi.t) : Prop :=
  forall a b,
    inCatalog stable initial a -> inCatalog stable initial b ->
    apiSlug a = apiSlug b -> a = b.

(** The whole catalog as one sequence of records. *)
Definition allRecords (stable : list CamaraApi.t)
    (initial : list InitialApi.t) : list Api :=
  map OfStable stable ++ map OfInitial initial.

(** No element of [l] occurs twice. *)
Fixpoint distinct (l : list string) : bool :=
  match l with
  | [] => true
  | x :: l' => negb (existsb (String.eqb x) l') && distinct l'
  end.

(** One of the record's description, name, slug, industries or use cases
    contains the query, case-insensitively. *)
Definition mentionsInText (api : Api) (query : string) : Prop :=
  containsCI (apiDescription api) query
  \/ containsCI (apiName api) query
  \/ containsCI (apiSlug api) query
  \/ match api with
     | OfStable a =>
         Exists (fun e => containsCI e query) (CamaraApi.industries a)
         \/ Exists (fun e => containsCI e query) (CamaraApi.useCases a)
     | OfInitial _ => False
     end.

(** A slug resolves when some stable record carries it. *)
Definition resolves (stable : list CamaraApi.t) (slug : string) : bool :=
  existsb (fun a => String.eqb (CamaraApi.slug a) slug) stable.

(* ================================================================== *)
(** * The rest of the catalog service and of the tool handlers *)
(* ================================================================== *)

(** What a tool handler hands back: [errorResult(message)], or the value
    from which its JSON and markdown renderings are produced. *)
Inductive ToolOutcome (T : Type) :=
| ToolError (text : string)
| ToolValue (value : T).

Arguments ToolError {T} _.
Arguments ToolValue {T} _.

Definition toolError {T : Type} (message : string) : ToolOutcome T :=
  ToolError ("Error: " ++ message)%string.

Module CategoryMeta.
Record t := { label : string; description : string; icon : string }.
End CategoryMeta.

(** [API_CATEGORIES], as the entries [Object.entries] enumerates. *)
Definition API_CATEGORIES : list (ApiCategory * CategoryMeta.t) :=
  [ (AuthFraud,
     {| CategoryMeta.label := "Authentication & Fraud Prevention";
        CategoryMeta.description :=
          "APIs for identity verification, fraud detection, and secure authentication without traditional methods like SMS OTP.";
        CategoryMeta.icon := "🔐" |});
    (Location,
     {| CategoryMeta.label := "Location Services";
        CategoryMeta.description :=
          "Network-based location verification, retrieval, and geofencing without device-side GPS dependencies.";
        CategoryMeta.icon := "📍" |});
    (Communication,
     {| CategoryMeta.label := "Communication Services";
        CategoryMeta.description :=
          "Messaging, voice, and real-time communication APIs leveraging operator infrastructure.";
        CategoryMeta.icon := "📞" |});
    (CommunicationQuality,
     {| CategoryMeta.label := "Communication Quality";
        CategoryMeta.description :=
          "Quality of Service management, QoS profiles, and connectivity insights for application optimization.";
        CategoryMeta.icon := "📶" |});
    (DeviceInfo,
     {| CategoryMeta.label := "Device Information";
        CategoryMeta.description :=
          "Device status, reachability, roaming, and hardware change detection APIs.";
        CategoryMeta.icon := "📱" |});
    (Computing,
     {| CategoryMeta.label := "Computing Services";
        CategoryMeta.description :=
          "Edge computing discovery and optimization for low-latency applications.";
        CategoryMeta.icon := "☁️" |});
    (Payments,
     {| CategoryMeta.label := "Payments & Charging";
        CategoryMeta.description :=
          "Carrier billing and direct-to-bill payment APIs.";
        CategoryMeta.icon := "💳" |});
    (Identity,
     {| CategoryMeta.label := "Identity & KYC";
        CategoryMeta.description :=
          "Know Your Customer, age verification, tenure validation, and identity enrichment APIs.";
        CategoryMeta.icon := "🪪" |}) ]%string.

(** An element of [CategoryResult.apis]. *)
Module ApiSummary.
Record t := {
  name : string;
  slug : string;
  status : string;
  version : string
}.
End ApiSummary.

Module CategoryResult.
Record t := {
  category_id : string;
  label : string;
  description : string;
  icon : string;
  api_count : Z;
  apis : list ApiSummary.t
}.
End CategoryResult.

Section CatalogListing.

Variable STABLE_APIS : list CamaraApi.t.
Variable INITIAL_APIS : list InitialApi.t.

Definition listCategories : list CategoryResult.t :=
  map (fun entry : ApiCategory * CategoryMeta.t =>
         let (id, meta) := entry in
         let stableInCat :=
           filter (fun a => String.eqb (categoryId (CamaraApi.category a))
                              (categoryId id)) STABLE_APIS in
         let initialInCat :=
           filter (fun a => String.eqb (categoryId (InitialApi.category a))
                              (categoryId id)) INITIAL_APIS in
         {| CategoryResult.category_id := categoryId id;
            CategoryResult.label := CategoryMeta.label meta;
            CategoryResult.description := CategoryMeta.description meta;
            CategoryResult.icon := CategoryMeta.icon meta;
            CategoryResult.api_count :=
              Z.of_nat (length stableInCat) + Z.of_nat (length initialInCat);
            CategoryResult.apis :=
              map (fun a => {| ApiSummary.name := CamaraApi.name a;
                               ApiSummary.slug := CamaraApi.slug a;
                               ApiSummary.status := statusId (CamaraApi.status a);
                               ApiSummary.version := CamaraApi.latestVersion a |})
                  stableInCat
              ++ map (fun a => {| ApiSummary.name := InitialApi.name a;
                                  ApiSummary.slug := InitialApi.slug a;
                                  ApiSummary.status := "initial";
                                  ApiSummary.version := InitialApi.version a |})
                     initialInCat |})
      API_CATEGORIES.

(** The handler of the [camara_get_api_detail] tool (tools/register.ts). *)
Definition camara_get_api_detail (slug : string)
    : ToolOutcome ApiDetailResult.t :=
  match getApiDetail STABLE_APIS slug with
  | None =>
      let validSlugs := JS.join ", " (map CamaraApi.slug STABLE_APIS) in
      toolError ("API '" ++ slug ++ "' not found. Valid stable API slugs: "
                 ++ validSlugs)%string
  | Some detail => ToolValue detail
  end.

End CatalogListing.

(** A record as the category listing shows it. *)
Definition summarize (api : Api) : ApiSummary.t :=
  match api with
  | OfStable a =>
      {| ApiSummary.name := CamaraApi.name a;
         ApiSummary.slug := CamaraApi.slug a;
         ApiSummary.status := statusId (CamaraApi.status a);
         ApiSummary.version := CamaraApi.latestVersion a |}
  | OfInitial a =>
      {| ApiSummary.name := InitialApi.name a;
         ApiSummary.slug := InitialApi.slug a;
         ApiSummary.status := "initial";
         ApiSummary.version := InitialApi.version a |}
  end.

(** The eight category identifiers, in the order of [API_CATEGORIES]. *)
Definition categoryIds : list string :=
  map categoryId
    [AuthFraud; Location; Communication; CommunicationQuality;
     DeviceInfo; Computing; Payments; Identity].

(* ------------------------------------------------------------------ *)
(** ** Use cases by industry (tools/register.ts) *)

Module IndustryEntry.
Record t := { api : string; slug : string; use_cases : list string }.
End IndustryEntry.

(** The own properties of the object [industryMap], in the order in which
    they were created.  (Enumeration would put keys that are array
    indices first; the properties below are about lookups and about the
    order inside a group, not about the order of the keys.) *)
Definition IndustryMap : Type := list (string * list IndustryEntry.t).

(** The property names that an object literal inherits from
    [Object.prototype]; reading one of them yields a value that is truthy
    and has no [push]. *)
Definition objectPrototypeKeys : list string :=
  ["constructor"; "__defineGetter__"; "__defineSetter__"; "hasOwnProperty";
   "__lookupGetter__"; "__lookupSetter__"; "isPrototypeOf";
   "propertyIsEnumerable"; "toString"; "valueOf"; "__proto__";
   "toLocaleString"]%string.

Fixpoint ownProperty {V : Type} (m : list (string * V)) (key : string)
    : option V :=
  match m with
  | [] => None
  | (k, v) :: m' => if String.eqb k key then Some v else ownProperty m' key
  end.

(** [m[key].push(e)] on an own property. *)
Fixpoint pushAt (m : IndustryMap) (key : string) (e : IndustryEntry.t)
    : IndustryMap :=
  match m with
  | [] => []
  | (k, g) :: m' =>
      if String.eqb k key then (k, g ++ [e]) :: m'
      else (k, g) :: pushAt m' key e
  end.

(** [if (!m[ind]) m[ind] = []; m[ind].push(e)].  [None]: the call of
    [push] on an inherited value raises a TypeError. *)
Definition pushEntry (m : IndustryMap) (ind : string) (e : IndustryEntry.t)
    : option IndustryMap :=
  match ownProperty m ind with
  | Some _ => Some (pushAt m ind e)
  | None =>
      if existsb (String.eqb ind) objectPrototypeKeys then None
      else Some (m ++ [(ind, [e])])
  end.

(** The condition of the [continue]:
    [params.industry && !key.includes(params.industry.toLowerCase())]. *)
Definition skipsIndustry (industry : option string) (ind : string) : bool :=
  let key := JS.toLowerCase ind in
  JS.andAlso industry (fun i => negb (JS.includes key (JS.toLowerCase i))).

Definition industryEntry (api : CamaraApi.t) : IndustryEntry.t :=
  {| IndustryEntry.api := CamaraApi.name api;
     IndustryEntry.slug := CamaraApi.slug api;
     IndustryEntry.use_cases := CamaraApi.useCases api |}.

(** The inner loop, over the industries of one record. *)
Fixpoint scanIndustries (industry : option string) (api : CamaraApi.t)
    (industries : list string) (m : IndustryMap) : option IndustryMap :=
  match industries with
  | [] => Some m
  | ind :: rest =>
      if skipsIndustry industry ind then scanIndustries industry api rest m
      else match pushEntry m ind (industryEntry api) with
           | None => None
           | Some m' => scanIndustries industry api rest m'
           end
  end.

(** The outer loop, over the stable records. *)
Fixpoint scanApis (industry : option string) (apis : list CamaraApi.t)
    (m : IndustryMap) : option IndustryMap :=
  match apis with
  | [] => Some m
  | api :: rest =>
      match scanIndustries industry api (CamaraApi.industries api) m with
      | None => None
      | Some m' => scanApis industry rest m'
      end
  end.

(** [[...new Set(l)]]: the first occurrence of each element, in order. *)
Fixpoint setOf (l seen : list string) : list string :=
  match l with
  | [] => []
  | x :: l' =>
      if existsb (String.eqb x) seen then setOf l' seen
      else x :: setOf l' (x :: seen)
  end.

(** A template literal's rendering of an optional string. *)
Definition templateOf (o : option string) : string :=
  match o with
  | Some s => s
  | None => "undefined"
  end.

Section UseCases.

Variable STABLE_APIS : list CamaraApi.t.

Definition buildIndustryMap (industry : option string) : option IndustryMap :=
  scanApis industry STABLE_APIS [].

(** [[...new Set(STABLE_APIS.flatMap(a => a.industries))].sort()]; without
    a comparator [sort] orders strings by their code units. *)
Definition allIndustries : list string :=
  JS.sort ordinalCompare
    (setOf (flat_map CamaraApi.industries STABLE_APIS) []).

(** The handler of the [camara_use_cases] tool.  [None]: the handler
    raises. *)
Definition camara_use_cases (industry : option string)
    : option (ToolOutcome IndustryMap) :=
  match buildIndustryMap industry with
  | None => None
  | Some industryMap =>
      if Z.of_nat (length industryMap) =? 0 then
        Some (toolError
                ("No APIs found for industry '" ++ templateOf industry
                 ++ "'. Available: " ++ JS.join ", " allIndustries)%string)
      else Some (ToolValue industryMap)
  end.

End UseCases.

(** The pushes the two loops perform, in order: the labels that are not
    skipped, each with the entry of its record. *)
Definition industryPushes (stable : list CamaraApi.t)
    (industry : option string) : list (string * IndustryEntry.t) :=
  flat_map
    (fun a =>
       map (fun ind => (ind, industryEntry a))
         (filter (fun ind => negb (skipsIndustry industry ind))
            (CamaraApi.industries a)))
    stable.

(** The entries pushed under the label [key]. *)
Definition pushedUnder (key : string)
    (pushes : list (string * IndustryEntry.t)) : list IndustryEntry.t :=
  map snd (filter (fun p => String.eqb (fst p) key) pushes).

(** Performing a sequence of pushes on the map. *)
Fixpoint applyPushes (pushes : list (string * IndustryEntry.t))
    (m : IndustryMap) : option IndustryMap :=
  match pushes with
  | [] => Some m
  | (ind, e) :: rest =>
      match pushEntry m ind e with
      | None => None
      | Some m' => applyPushes rest m'
      end
  end.

(** The shape the map keeps: distinct own keys, none of them inherited,
    no empty group. *)
Definition wellFormedMap (m : IndustryMap) : Prop :=
  NoDup (map fst m)
  /\ Forall (fun p => existsb (String.eqb (fst p)) objectPrototypeKeys = false
                      /\ snd p <> []) m.

(* ------------------------------------------------------------------ *)
(** ** Migration guide (tools/register.ts) *)

Module JSString.

(** [s.split(sep)] for a non-empty separator: the pieces between the
    occurrences of [sep], scanning from the left.  [skip] counts the
    characters of a separator that was just matched and is being passed
    over; [cur] is the piece under construction. *)
Fixpoint splitAux (sep s : string) (skip : nat) (cur : string) : list string :=
  match s with
  | EmptyString => [cur]
  | String c s' =>
      match skip with
      | S k => splitAux sep s' k cur
      | O =>
          if String.prefix sep s
          then cur :: splitAux sep s' (String.length sep - 1) EmptyString
          else splitAux sep s' 0 (cur ++ String c EmptyString)%string
      end
  end.

(** [s.split("")]: one string per character. *)
Fixpoint characters (s : string) : list string :=
  match s with
  | EmptyString => []
  | String c s' => String c EmptyString :: characters s'
  end.

Definition split (s sep : string) : list string :=
  if String.eqb sep "" then characters s else splitAux sep s 0 EmptyString.

End JSString.

(** [a || d] on strings: [a] unless it is [undefined] or empty. *)
Definition orString (a : option string) (d : string) : string :=
  match a with
  | Some s => if String.eqb s "" then d else s
  | None => d
  end.

(** [x !== y] on values that are strings or [undefined]. *)
Definition differs (x y : option string) : bool :=
  match x, y with
  | Some a, Some b => negb (String.eqb a b)
  | None, None => false
  | _, _ => true
  end.

Module KeyResources.
Record t := {
  changelog : string;
  api_definitions : string;
  commonalities : string;
  release_notes : string
}.
End KeyResources.

Module MigrationGuide.
Record t := {
  api : string;
  slug : string;
  from_version : string;
  to_version : string;
  is_major_upgrade : bool;
  changelog_url : string;
  migration_steps : list string;
  key_resources : KeyResources.t;
  commonalities_changes : list string;
  version_history : list string
}.
End MigrationGuide.

Section Migration.
Local Open Scope string_scope.

Variable STABLE_APIS : list CamaraApi.t.

(** The handler of the [camara_migration_guide] tool. *)
Definition camara_migration_guide (slug : string) (from_version : option string)
    : ToolOutcome MigrationGuide.t :=
  match find (fun a => String.eqb (CamaraApi.slug a) slug) STABLE_APIS with
  | None =>
      let validSlugs := JS.join ", " (map CamaraApi.slug STABLE_APIS) in
      toolError ("API '" ++ slug ++ "' not found. Valid slugs: " ++ validSlugs)
  | Some api =>
      let fromVersion :=
        orString from_version
          (orString (hd_error (CamaraApi.previousVersions api)) "0.x") in
      let toVersion := CamaraApi.latestVersion api in
      let majorBump :=
        differs (hd_error (JSString.split fromVersion "."))
                (hd_error (JSString.split toVersion ".")) in
      let repo := CAMARA_BASE_URL ++ "/" ++ CamaraApi.repository api in
      ToolValue
        {| MigrationGuide.api := CamaraApi.name api;
           MigrationGuide.slug := CamaraApi.slug api;
           MigrationGuide.from_version := fromVersion;
           MigrationGuide.to_version := toVersion;
           MigrationGuide.is_major_upgrade := majorBump;
           MigrationGuide.changelog_url := repo ++ "/blob/main/CHANGELOG.md";
           MigrationGuide.migration_steps :=
             ["1. Review the CHANGELOG at " ++ repo ++ "/blob/main/CHANGELOG.md";
              "2. Update your OpenAPI spec from " ++ repo
                ++ "/tree/main/code/API_definitions";
              "3. Update endpoint paths: check if base paths changed (v"
                ++ fromVersion ++ " → v" ++ toVersion ++ ")"]
             ++ (if majorBump then
                   ["4. ⚠️ MAJOR VERSION: Check for breaking changes in request/response schemas";
                    "5. ⚠️ MAJOR VERSION: Verify authentication scopes — new scopes may be required";
                    "6. Update error handling — error response formats may have changed per CAMARA Commonalities";
                    "7. Test in sandbox environment before production deployment";
                    "8. Update SDK/client library to latest version"]
                 else
                   ["4. Minor version: backward-compatible changes expected";
                    "5. Check for new optional fields in responses";
                    "6. Test in sandbox to confirm compatibility"]);
           MigrationGuide.key_resources :=
             {| KeyResources.changelog := repo ++ "/blob/main/CHANGELOG.md";
                KeyResources.api_definitions :=
                  repo ++ "/tree/main/code/API_definitions";
                KeyResources.commonalities := CAMARA_BASE_URL ++ "/Commonalities";
                KeyResources.release_notes := repo ++ "/releases" |};
           MigrationGuide.commonalities_changes :=
             ["Error response format aligned with RFC 7807 Problem Details";
              "CloudEvents v1.0 for event subscriptions";
              "Standardized device identifier format";
              "Consistent pagination patterns"];
           MigrationGuide.version_history :=
             toVersion :: CamaraApi.previousVersions api |}
  end.

End Migration.

(** The text of a version before its first dot: its major component. *)
Definition majorComponent (version major : string) : Prop :=
  JS.includes major "." = false
  /\ (version = major \/ exists rest, version = (major ++ "." ++ rest)%string).

(* ------------------------------------------------------------------ *)
(** ** Markdown rendering of a search response (services/catalog.ts) *)

(** A template literal's rendering of an integer. *)
Definition numberToString (n : Z) : string :=
  DecimalString.NilZero.string_of_int (Z.to_int n).

Definition templateOfNumber (o : option Z) : string :=
  match o with
  | Some n => numberToString n
  | None => "undefined"
  end.

(** The line feed. *)
Definition newline : string := String (ascii_of_nat 10) EmptyString.

(** [API_CATEGORIES[category]?.label || category]: the label of an own
    key; an inherited property has no label. *)
Definition categoryLabel (category : string) : string :=
  match find (fun entry => String.eqb (categoryId (fst entry)) category)
          API_CATEGORIES with
  | Some entry => orString (Some (CategoryMeta.label (snd entry))) category
  | None => category
  end.

(** The lines pushed for one item. *)
Definition searchResultLines (api : ApiSearchResult.t) : list string :=
  let statusBadge :=
    if String.eqb (ApiSearchResult.status api) "stable"
    then "✅ Stable"%string else "🔄 Initial"%string in
  [("### " ++ ApiSearchResult.name api ++ " (v" ++ ApiSearchResult.version api
    ++ ") — " ++ statusBadge)%string;
   ("**Category:** " ++ categoryLabel (ApiSearchResult.category api))%string;
   ApiSearchResult.description api;
   ("- **Repository:** " ++ ApiSearchResult.repository_url api)%string]
  ++ (if JS.truthy (ApiSearchResult.website_url api)
      then [("- **Docs:** "
             ++ templateOf (ApiSearchResult.website_url api))%string]
      else [])
  ++ [EmptyString].

(** The array [lines] at the end of [formatApiSearchMarkdown]. *)
Definition formatApiSearchLines
    (results : PaginatedResponse.t ApiSearchResult.t) : list string :=
  [("## CAMARA API Search Results ("
    ++ numberToString (PaginatedResponse.total results) ++ " found)"
    ++ newline)%string]
  ++ flat_map searchResultLines (PaginatedResponse.items results)
  ++ (if PaginatedResponse.has_more results
      then [("*Showing " ++ numberToString (PaginatedResponse.count results)
             ++ " of " ++ numberToString (PaginatedResponse.total results)
             ++ " results. Use offset="
             ++ templateOfNumber (PaginatedResponse.next_offset results)
             ++ " for more.*")%string]
      else []).

Definition formatApiSearchMarkdown
    (results : PaginatedResponse.t ApiSearchResult.t) : string :=
  if PaginatedResponse.total results =? 0
  then "No CAMARA APIs found matching your query."%string
  else JS.join newline (formatApiSearchLines results).

(* ================================================================== *)
(** * Facts about the JavaScript primitives *)
(* ================================================================== *)

Section StringFacts.
Local Open Scope string_scope.

Lemma prefix_iff (q s : string) :
  String.prefix q s = true <-> exists post, s = q ++ post.
Proof.
  revert q; induction s as [|b s IH]; intros [|a q]; simpl.
  - split; [exists ""; reflexivity | reflexivity].
  - split; [discriminate | intros [post H]; discriminate].
  - split; [exists (String b s); reflexivity | reflexivity].
  - destruct (ascii_dec a b) as [->|Hab].
    + rewrite IH. split; intros [post H]; exists post.
      * now rewrite H.
      * now inversion H.
    + split; [discriminate | intros [post H]; simpl in H; congruence].
Qed.

Lemma append_assoc (a b c : string) : (a ++ b) ++ c = a ++ (b ++ c).
Proof. induction a as [|x a IH]; simpl; [reflexivity | now rewrite IH]. Qed.

(** [includes] decides the substring relation. *)
Lemma includes_iff (s q : string) :
  JS.includes s q = true <-> exists pre post, s = pre ++ q ++ post.
Proof.
  induction s as [|b s IH]; cbn [JS.includes];
    rewrite orb_true_iff, prefix_iff.
  - split.
    + intros [[post H]|H]; [exists "", post; exact H | discriminate].
    + intros [[|x pre] [post H]]; [left; exists post; exact H | discriminate].
  - rewrite IH. split.
    + intros [[post H]|[pre [post H]]].
      * exists "", post; exact H.
      * exists (String b pre), post; simpl; now rewrite H.
    + intros [[|x pre] [post H]].
      * left; exists post; exact H.
      * right; exists pre, post. simpl in H. now inversion H.
Qed.

Lemma containsCI_iff (text query : string) :
  containsCI text query
  <-> JS.includes (JS.toLowerCase text) (JS.toLowerCase query) = true.
Proof. unfold containsCI. now rewrite includes_iff. Qed.

Lemma categoryId_lowercase (c : ApiCategory) :
  JS.toLowerCase (categoryId c) = categoryId c.
Proof. destruct c; reflexivity. Qed.

End StringFacts.

Section ScoreFacts.

Lemma contributes_if (w : Z) (hit : Prop) (b : bool) :
  (hit <-> b = true) -> contributes w hit (if b then w else 0).
Proof.
  intros H; destruct b; [left | right]; split; trivial.
  - now apply H.
  - intros Hh; apply H in Hh; discriminate.
Qed.

(** The loop adds its weight once exactly when some entry matches. *)
Lemma scanEntries_existsb (entries : list string) (q : string) (w s : Z) :
  scanEntries entries q w s
  = s + (if existsb (fun e => JS.includes (JS.toLowerCase e) q) entries
         then w else 0).
Proof.
  induction entries as [|e rest IH]; simpl.
  - lia.
  - destruct (JS.includes (JS.toLowerCase e) q); simpl; [reflexivity | exact IH].
Qed.

Lemma Exists_containsCI_iff (entries : list string) (query : string) :
  Exists (fun e => containsCI e query) entries
  <-> existsb (fun e => JS.includes (JS.toLowerCase e) (JS.toLowerCase query))
        entries = true.
Proof.
  rewrite Exists_exists, existsb_exists.
  split; intros [e [Hin H]]; exists e; split; trivial; now apply containsCI_iff.
Qed.

Lemma searchScore_unfold (api : Api) (query : string) :
  let q := JS.toLowerCase query in
  let hit (b : bool) (w : Z) := if b then w else 0 in
  searchScore api query
  = hit (JS.includes (JS.toLowerCase (apiName api)) q) 10
    + hit (JS.includes (apiSlug api) q) 8
    + hit (JS.includes (categoryId (apiCategory api)) q) 5
    + hit (JS.includes (JS.toLowerCase (apiDescription api)) q) 3
    + match api with
      | OfStable a =>
          hit (existsb (fun e => JS.includes (JS.toLowerCase e) q)
                 (CamaraApi.industries a)) 4
          + hit (existsb (fun e => JS.includes (JS.toLowerCase e) q)
                   (CamaraApi.useCases a)) 2
      | OfInitial _ => 0
      end.
Proof.
  unfold searchScore; cbv zeta.
  destruct api as [a|a]; rewrite ?scanEntries_existsb;
    repeat match goal with |- context [if ?b then _ else _] => destruct b end;
    lia.
Qed.

Lemma searchScore_nonneg (api : Api) (query : string) :
  0 <= searchScore api query.
Proof.
  rewrite searchScore_unfold; cbv zeta.
  destruct api as [a|a];
    repeat match goal with |- context [if ?b then _ else _] => destruct b end;
    lia.
Qed.

(** The score is positive exactly when some scored field matches. *)
Lemma searchScore_pos (api : Api) (query : string) :
  lowercaseSlug api ->
  0 < searchScore api query
  <-> mentionsInText api query
      \/ containsCI (categoryId (apiCategory api)) query.
Proof.
  intros Hslug. red in Hslug. unfold mentionsInText.
  rewrite searchScore_unfold; cbv zeta.
  rewrite !containsCI_iff, Hslug, categoryId_lowercase.
  destruct api as [a|a].
  - rewrite !Exists_containsCI_iff.
    repeat match goal with |- context [if ?b then _ else _] => destruct b end;
      split; intros H; try lia; try tauto;
      repeat match goal with
        | H : _ \/ _ |- _ => destruct H
        end; discriminate.
  - repeat match goal with |- context [if ?b then _ else _] => destruct b end;
      split; intros H; try lia; try tauto;
      repeat match goal with
        | H : _ \/ _ |- _ => destruct H
        end; try discriminate; contradiction.
Qed.

End ScoreFacts.

(** C1.  For every catalog record, stable or initial (a record whose slug
    is a lower-case identifier, as the data model has it), and every query,
    in particular every non-empty one, the relevance score is the sum of
    10 if the name contains the query case-insensitively, 8 if the slug
    does, 5 if the category identifier does, 3 if the description does,
    4 if at least one industry entry does and 2 if at least one use-case
    entry does, each list contributing at most once; on the initial
    variant, which has neither list, those two contributions are 0. *)
Theorem searchScore_weighted_sum (api : Api) (query : string) :
  lowercaseSlug api ->
  exists n s c d i u,
    contributes 10 (containsCI (apiName api) query) n
    /\ contributes 8 (containsCI (apiSlug api) query) s
    /\ contributes 5 (containsCI (categoryId (apiCategory api)) query) c
    /\ contributes 3 (containsCI (apiDescription api) query) d
    /\ match api with
       | OfStable a =>
           contributes 4
             (Exists (fun e => containsCI e query) (CamaraApi.industries a)) i
           /\ contributes 2
                (Exists (fun e => containsCI e query) (CamaraApi.useCases a)) u
       | OfInitial _ => i = 0 /\ u = 0
       end
    /\ searchScore api query = n + s + c + d + i + u.
Proof.
  intros Hslug. rewrite searchScore_unfold; cbv zeta.
  set (q := JS.toLowerCase query).
  exists (if JS.includes (JS.toLowerCase (apiName api)) q then 10 else 0),
         (if JS.includes (apiSlug api) q then 8 else 0),
         (if JS.includes (categoryId (apiCategory api)) q then 5 else 0),
         (if JS.includes (JS.toLowerCase (apiDescription api)) q then 3 else 0).
  destruct api as [a|a].
  - exists (if existsb (fun e => JS.includes (JS.toLowerCase e) q)
                 (CamaraApi.industries a) then 4 else 0),
           (if existsb (fun e => JS.includes (JS.toLowerCase e) q)
                 (CamaraApi.useCases a) then 2 else 0).
    repeat split; try apply contributes_if;
      try apply containsCI_iff; try apply Exists_containsCI_iff.
    + red in Hslug. rewrite containsCI_iff, Hslug. reflexivity.
    + rewrite containsCI_iff, categoryId_lowercase. reflexivity.
    + lia.
  - exists 0, 0.
    repeat split; try apply contributes_if; try apply containsCI_iff.
    + red in Hslug. rewrite containsCI_iff, Hslug. reflexivity.
    + rewrite containsCI_iff, categoryId_lowercase. reflexivity.
    + lia.
Qed.

Lemma searchScore_weighted_sum_witness :
  lowercaseSlug (OfStable Fall25.sim_swap)
  /\ exists n s c d i u,
       contributes 10 (containsCI "SIM Swap" "SIM") n
       /\ contributes 8 (containsCI "sim-swap" "SIM") s
       /\ contributes 5 (containsCI "auth-fraud" "SIM") c
       /\ contributes 3
            (containsCI (CamaraApi.description Fall25.sim_swap) "SIM") d
       /\ (contributes 4
             (Exists (fun e => containsCI e "SIM")
                (CamaraApi.industries Fall25.sim_swap)) i
           /\ contributes 2
                (Exists (fun e => containsCI e "SIM")
                   (CamaraApi.useCases Fall25.sim_swap)) u)
       /\ searchScore (OfStable Fall25.sim_swap) "SIM" = n + s + c + d + i + u.
Proof.
  split; [reflexivity|].
  apply (searchScore_weighted_sum (OfStable Fall25.sim_swap) "SIM").
  reflexivity.
Defined.

Section SortFacts.
Context {A : Type} (compareFn : A -> A -> Z).

Lemma insert_perm (x : A) (l : list A) :
  Permutation (JS.insert compareFn x l) (x :: l).
Proof.
  induction l as [|y l IH]; simpl; [reflexivity|].
  destruct (compareFn x y <=? 0); [reflexivity|].
  rewrite IH. apply perm_swap.
Qed.

Lemma sort_perm (l : list A) : Permutation (JS.sort compareFn l) l.
Proof.
  induction l as [|x l IH]; simpl; [reflexivity|].
  rewrite insert_perm. now constructor.
Qed.

Lemma sort_length (l : list A) : length (JS.sort compareFn l) = length l.
Proof. apply Permutation_length, sort_perm. Qed.

Lemma sort_In (x : A) (l : list A) : In x (JS.sort compareFn l) <-> In x l.
Proof.
  split; apply Permutation_in; [|symmetry]; apply sort_perm.
Qed.

(** With a comparator that is total and transitive, the result is in
    order. *)
Variable before : A -> A -> Prop.
Hypothesis before_iff : forall a b, before a b <-> compareFn a b <= 0.
Hypothesis before_total : forall a b, before a b \/ before b a.
Hypothesis before_trans :
  forall a b c, before a b -> before b c -> before a c.

Lemma insert_sorted (x : A) (l : list A) :
  StronglySorted before l -> StronglySorted before (JS.insert compareFn x l).
Proof.
  induction 1 as [|y l Hl IH Hy]; simpl.
  - repeat constructor.
  - destruct (Z.leb_spec (compareFn x y) 0) as [Hle|Hgt].
    + apply before_iff in Hle. constructor; [now constructor|].
      constructor; [exact Hle|].
      rewrite Forall_forall in *. eauto.
    + constructor; [exact IH|].
      assert (Hyx : before y x).
      { destruct (before_total x y) as [H|H]; [|exact H].
        apply before_iff in H. lia. }
      rewrite Forall_forall in *. intros z Hz.
      apply (Permutation_in _ (insert_perm x l)) in Hz.
      destruct Hz as [<-|Hz]; auto.
Qed.

Lemma sort_sorted (l : list A) : StronglySorted before (JS.sort compareFn l).
Proof.
  induction l as [|x l IH]; simpl; [constructor | now apply insert_sorted].
Qed.

End SortFacts.

Section StableSortFacts.
Context {A : Type} (compareFn : A -> A -> Z).
Hypothesis compare_total :
  forall a b, compareFn a b <= 0 \/ compareFn b a <= 0.
Hypothesis compare_trans :
  forall a b c, compareFn a b <= 0 -> compareFn b c <= 0 -> compareFn a c <= 0.

Lemma tied_iff (x y : A) :
  tied compareFn x y = true <-> compareFn x y <= 0 /\ compareFn y x <= 0.
Proof. unfold tied. rewrite andb_true_iff, !Z.leb_le. tauto. Qed.

Lemma tied_refl (x : A) : tied compareFn x x = true.
Proof. apply tied_iff. destruct (compare_total x x); tauto. Qed.

Lemma tied_sym (x y : A) : tied compareFn x y = tied compareFn y x.
Proof. unfold tied. apply andb_comm. Qed.

(** Insertion never moves an element past one it is tied with. *)
Lemma insert_tied (x a : A) (l : list A) :
  filter (tied compareFn x) (JS.insert compareFn a l)
  = filter (tied compareFn x) (a :: l).
Proof.
  induction l as [|y l IH]; [reflexivity|]. cbn [JS.insert].
  destruct (Z.leb_spec (compareFn a y) 0) as [Hle|Hgt]; [reflexivity|].
  cbn [filter] in *. rewrite IH.
  destruct (tied compareFn x a) eqn:Ha, (tied compareFn x y) eqn:Hy; trivial.
  apply tied_iff in Ha, Hy.
  assert (compareFn a y <= 0) by (apply compare_trans with x; tauto). lia.
Qed.

Lemma sort_stable (l : list A) : stableSortOf compareFn l (JS.sort compareFn l).
Proof.
  split.
  - apply sort_sorted with (before := fun a b => compareFn a b <= 0);
      [reflexivity | assumption | assumption].
  - intros x. induction l as [|a l IH]; [reflexivity|].
    cbn [JS.sort fold_right]. fold (JS.sort compareFn l).
    rewrite insert_tied. cbn [filter]. now rewrite IH.
Qed.

Lemma filter_head_In (f : A -> bool) (x : A) (rest l : list A) :
  filter f l = x :: rest -> In x l.
Proof.
  intros H. assert (Hin : In x (filter f l)) by (rewrite H; now left).
  now apply filter_In in Hin.
Qed.

Lemma sorted_tied_unique (o1 o2 : list A) :
  StronglySorted (fun a b => compareFn a b <= 0) o1 ->
  StronglySorted (fun a b => compareFn a b <= 0) o2 ->
  (forall x, filter (tied compareFn x) o1 = filter (tied compareFn x) o2) ->
  o1 = o2.
Proof.
  intros H1. revert o2.
  induction H1 as [|a t Ht IH Ha]; intros o2 H2 Hf.
  - destruct o2 as [|b u]; [reflexivity|].
    specialize (Hf b). cbn [filter] in Hf. now rewrite tied_refl in Hf.
  - destruct H2 as [|b u Hu Hb].
    + specialize (Hf a). cbn [filter] in Hf. now rewrite tied_refl in Hf.
    + assert (Hab : a = b).
      { destruct (tied compareFn a b) eqn:Htied.
        - specialize (Hf a). cbn [filter] in Hf.
          rewrite tied_refl, Htied in Hf. now injection Hf.
        - exfalso.
          pose proof (Hf a) as Hfa. pose proof (Hf b) as Hfb.
          cbn [filter] in Hfa, Hfb.
          rewrite tied_refl, Htied in Hfa.
          rewrite tied_refl, (tied_sym b a), Htied in Hfb.
          symmetry in Hfa. apply filter_head_In in Hfa, Hfb.
          rewrite Forall_forall in Ha, Hb.
          assert (tied compareFn a b = true); [|congruence].
          apply tied_iff. split; [now apply Ha | now apply Hb]. }
      subst b. f_equal. apply IH; trivial.
      intros x. specialize (Hf x). cbn [filter] in Hf.
      destruct (tied compareFn x a); [now injection Hf | exact Hf].
Qed.

(** The sorted array does not depend on the sorting algorithm. *)
Lemma stableSort_unique (l output : list A) :
  stableSortOf compareFn l output -> output = JS.sort compareFn l.
Proof.
  intros [Hs Hf]. destruct (sort_stable l) as [Hs' Hf'].
  apply sorted_tied_unique; trivial.
  intros x. now rewrite Hf, Hf'.
Qed.

End StableSortFacts.

Section SliceFacts.
Context {A : Type}.

Lemma StronglySorted_skipn (R : A -> A -> Prop) (n : nat) (l : list A) :
  StronglySorted R l -> StronglySorted R (skipn n l).
Proof.
  revert l; induction n as [|n IH]; intros l Hl; [exact Hl|].
  destruct Hl; simpl; [constructor | now apply IH].
Qed.

Lemma StronglySorted_firstn (R : A -> A -> Prop) (n : nat) (l : list A) :
  StronglySorted R l -> StronglySorted R (firstn n l).
Proof.
  revert l; induction n as [|n IH]; intros l Hl; [constructor|].
  destruct Hl as [|x l Hl Hx]; simpl; constructor; [now apply IH|].
  rewrite Forall_forall in *. intros y Hy.
  apply Hx. revert Hy. clear. revert l.
  induction n as [|n IHn]; intros [|z l]; simpl; try tauto.
  intros [->|H]; [now left | right; now apply IHn].
Qed.

Lemma In_firstn (x : A) (n : nat) (l : list A) :
  In x (firstn n l) -> In x l.
Proof.
  revert l; induction n as [|n IH]; intros [|y l]; simpl; try tauto.
  intros [->|H]; [now left | right; now apply IH].
Qed.

Lemma In_skipn (x : A) (n : nat) (l : list A) :
  In x (skipn n l) -> In x l.
Proof.
  revert l; induction n as [|n IH]; intros [|y l]; simpl; try tauto.
  intros H; right; now apply IH.
Qed.

(** A slice is a run of consecutive elements of the array. *)
Lemma slice_sorted (R : A -> A -> Prop) (l : list A) (a b : Z) :
  StronglySorted R l -> StronglySorted R (JS.slice l a b).
Proof.
  intros H. unfold JS.slice.
  now apply StronglySorted_firstn, StronglySorted_skipn.
Qed.

Lemma slice_In (x : A) (l : list A) (a b : Z) :
  In x (JS.slice l a b) -> In x l.
Proof.
  unfold JS.slice. intros H. eapply In_skipn, In_firstn, H.
Qed.

(** In range, the slice is the window [[offset, offset + limit)]. *)
Lemma slice_window (l : list A) (offset limit : Z) :
  0 <= offset -> 0 <= limit ->
  JS.slice l offset (offset + limit)
  = firstn (Z.to_nat limit) (skipn (Z.to_nat offset) l).
Proof.
  intros Ho Hl. unfold JS.slice, JS.relativeIndex.
  set (len := Z.of_nat (length l)).
  destruct (Z.ltb_spec offset 0) as [?|_]; [lia|].
  destruct (Z.ltb_spec (offset + limit) 0) as [?|_]; [lia|].
  destruct (Z_le_gt_dec len offset) as [Hge|Hlt].
  - rewrite (skipn_all2 (n := Z.to_nat (Z.min offset len))),
            (skipn_all2 (n := Z.to_nat offset)) by (subst len; lia).
    now rewrite !firstn_nil.
  - replace (Z.min offset len) with offset by lia.
    destruct (Z_le_gt_dec limit (len - offset)) as [Hfit|Hover].
    + do 2 f_equal. lia.
    + rewrite !firstn_all2; trivial; rewrite length_skipn; subst len; lia.
Qed.

Lemma slice_window_length (l : list A) (offset limit : Z) :
  0 <= offset -> 0 <= limit ->
  Z.of_nat (length (JS.slice l offset (offset + limit)))
  = Z.min limit (Z.max 0 (Z.of_nat (length l) - offset)).
Proof.
  intros Ho Hl. rewrite slice_window by assumption.
  rewrite length_firstn, length_skipn. lia.
Qed.

End SliceFacts.

(* ================================================================== *)
(** * Properties of the catalog service *)
(* ================================================================== *)

Section ServiceFacts.

Variable STABLE_APIS : list CamaraApi.t.
Variable INITIAL_APIS : list InitialApi.t.
Variable localeCompare : string -> string -> Z.

Lemma combined_length (query category status : option string) :
  length (combined STABLE_APIS INITIAL_APIS localeCompare query category status)
  = (length (filter (keepStable query category status) STABLE_APIS)
     + length (filter (keepInitial query category status) INITIAL_APIS))%nat.
Proof.
  unfold combined, candidates, stableResults, initialResults.
  now rewrite sort_length, length_app, !length_map.
Qed.

Lemma combined_In (query category status : option string) (r : Ranked) :
  In r (combined STABLE_APIS INITIAL_APIS localeCompare query category status)
  <-> exists api,
        kept STABLE_APIS INITIAL_APIS query category status api
        /\ r = {| score := scoreOf query api; result := project api |}.
Proof.
  unfold combined, candidates, stableResults, initialResults.
  rewrite sort_In, in_app_iff, !map_map, !in_map_iff. cbn [fst snd]. split.
  - intros [[a [<- H]]|[a [<- H]]]; apply filter_In in H.
    + exists (OfStable a). now split.
    + exists (OfInitial a). now split.
  - intros [[a|a] [[Hin Hk] ->]]; [left | right]; exists a;
      (split; [reflexivity | now apply filter_In]).
Qed.

Lemma paged_window (query category status : option string)
    (limit offset : option Z) :
  0 <= JS.orDefault 20 limit -> 0 <= JS.orDefault 0 offset ->
  paged STABLE_APIS INITIAL_APIS localeCompare query category status
    limit offset
  = firstn (Z.to_nat (JS.orDefault 20 limit))
      (skipn (Z.to_nat (JS.orDefault 0 offset))
         (combined STABLE_APIS INITIAL_APIS localeCompare query category status)).
Proof. intros Hl Ho. unfold paged. now apply slice_window. Qed.

End ServiceFacts.

(** C2.  For every search call (limit and offset non-negative, as the
    contract has them), [total] is the number of records in the filtered
    pre-pagination set; the returned items are the window
    [offset, offset + limit) of the full ranked sequence, so that [count]
    is [min(limit, total - offset)] when [offset < total] and 0 otherwise;
    [has_more] is true if and only if [offset + count < total]; and the
    response carries [next_offset], equal to [offset + count], exactly when
    [has_more] is true. *)
Theorem searchApis_pagination
    (STABLE_APIS : list CamaraApi.t) (INITIAL_APIS : list InitialApi.t)
    (localeCompare : string -> string -> Z)
    (query category status : option string) (limit offset : option Z) :
  let l := JS.orDefault 20 limit in
  let o := JS.orDefault 0 offset in
  let ranked := combined STABLE_APIS INITIAL_APIS localeCompare
                  query category status in
  let r := searchApis STABLE_APIS INITIAL_APIS localeCompare
             query category status limit offset in
  0 <= l -> 0 <= o ->
  PaginatedResponse.total r
  = Z.of_nat
      (length (filter (keepStable query category status) STABLE_APIS)
       + length (filter (keepInitial query category status) INITIAL_APIS))
  /\ PaginatedResponse.items r
     = firstn (Z.to_nat l) (skipn (Z.to_nat o) (map result ranked))
  /\ PaginatedResponse.count r
     = Z.of_nat (length (PaginatedResponse.items r))
  /\ PaginatedResponse.count r
     = (if o <? PaginatedResponse.total r
        then Z.min l (PaginatedResponse.total r - o) else 0)
  /\ (PaginatedResponse.has_more r = true
      <-> o + PaginatedResponse.count r < PaginatedResponse.total r)
  /\ (PaginatedResponse.has_more r = true
      -> PaginatedResponse.next_offset r
         = Some (o + PaginatedResponse.count r))
  /\ (PaginatedResponse.has_more r = false
      -> PaginatedResponse.next_offset r = None).
Proof.
  intros l o ranked r Hl Ho.
  assert (Hcount : PaginatedResponse.count r
                   = Z.min l (Z.max 0 (Z.of_nat (length ranked) - o))).
  { subst r. unfold searchApis, paged. cbn [PaginatedResponse.count].
    now apply slice_window_length. }
  assert (Htotal : PaginatedResponse.total r = Z.of_nat (length ranked))
    by reflexivity.
  repeat split.
  - rewrite Htotal. subst ranked. now rewrite combined_length.
  - subst r. unfold searchApis. cbn [PaginatedResponse.items].
    rewrite paged_window by assumption.
    now rewrite skipn_map, firstn_map.
  - subst r. unfold searchApis.
    cbn [PaginatedResponse.items PaginatedResponse.count].
    now rewrite length_map.
  - rewrite Hcount, Htotal.
    destruct (Z.ltb_spec o (Z.of_nat (length ranked))); lia.
  - subst r. unfold searchApis. cbn. intros H. now apply Z.ltb_lt in H.
  - subst r. unfold searchApis. cbn. intros H. now apply Z.ltb_lt.
  - subst r. unfold searchApis. cbn. intros H. now rewrite H.
  - subst r. unfold searchApis. cbn. intros H. now rewrite H.
Qed.

Lemma searchApis_pagination_witness :
  0 <= JS.orDefault 20 (Some 5) /\ 0 <= JS.orDefault 0 (Some 5)
  /\ PaginatedResponse.total
       (Deployed.searchApis None None (Some "stable"%string) (Some 5) (Some 5))
     = Z.of_nat
         (length (filter (keepStable None None (Some "stable"%string))
                    Fall25.STABLE_APIS)
          + length (filter (keepInitial None None (Some "stable"%string))
                      Fall25.INITIAL_APIS)).
Proof.
  split; [|split]; [cbn; lia | cbn; lia |].
  apply (searchApis_pagination Fall25.STABLE_APIS Fall25.INITIAL_APIS
           RootCollation.localeCompare None None (Some "stable"%string)
           (Some 5) (Some 5)); cbn; lia.
Defined.

(* ------------------------------------------------------------------ *)
(** ** Ordering *)

Section CollationFacts.
Import RootCollation.

Lemma compareKeys_opp (a b : list N) :
  compareKeys b a = CompOpp (compareKeys a b).
Proof.
  revert b; induction a as [|x a IH]; intros [|y b]; simpl; trivial.
  rewrite (N.compare_antisym x y).
  destruct (x ?= y)%N; simpl; trivial.
Qed.

Lemma compareKeys_trans (a b c : list N) :
  compareKeys a b <> Gt -> compareKeys b c <> Gt -> compareKeys a c <> Gt.
Proof.
  revert b c; induction a as [|x a IH]; intros [|y b] [|z c]; simpl;
    try congruence.
  destruct (N.compare_spec x y) as [->|Hxy|Hxy]; try congruence.
  - destruct (N.compare_spec y z) as [->|Hyz|Hyz]; try congruence.
    apply IH.
  - destruct (N.compare_spec y z) as [->|Hyz|Hyz]; try congruence; intros _ _.
    + now rewrite (proj2 (N.compare_lt_iff x z) Hxy).
    + rewrite (proj2 (N.compare_lt_iff x z)); [congruence | lia].
Qed.

Lemma localeCompare_le (a b : string) :
  localeCompare a b <= 0 <-> compareKeys (sortKey a) (sortKey b) <> Gt.
Proof.
  unfold localeCompare.
  destruct (compareKeys (sortKey a) (sortKey b)); split; try lia; congruence.
Qed.

(** The modelled collation is a comparator that sorting can rely on. *)
Lemma rootCollation_consistent : consistentComparator localeCompare.
Proof.
  split.
  - intros a b. rewrite !localeCompare_le.
    rewrite (compareKeys_opp (sortKey a) (sortKey b)).
    destruct (compareKeys (sortKey a) (sortKey b)); simpl;
      [left | left | right]; congruence.
  - intros a b c. rewrite !localeCompare_le. apply compareKeys_trans.
Qed.

End CollationFacts.

Section OrderFacts.

Lemma StronglySorted_nth_error {A : Type} (R : A -> A -> Prop) (l : list A) :
  StronglySorted R l ->
  forall i j a b, (i < j)%nat ->
    nth_error l i = Some a -> nth_error l j = Some b -> R a b.
Proof.
  induction 1 as [|x l Hl IH Hx]; intros i j a b Hij Ha Hb.
  - destruct i; discriminate.
  - destruct j as [|j]; [lia|]. simpl in Hb. destruct i as [|i].
    + simpl in Ha. injection Ha as <-.
      rewrite Forall_forall in Hx. eapply Hx, nth_error_In, Hb.
    + simpl in Ha. apply (IH i j); trivial. lia.
Qed.

Lemma StronglySorted_map_In {A B : Type} (R : A -> A -> Prop)
    (R' : B -> B -> Prop) (f : A -> B) (l : list A) :
  (forall a b, In a l -> In b l -> R a b -> R' (f a) (f b)) ->
  StronglySorted R l -> StronglySorted R' (map f l).
Proof.
  intros HR Hl. induction Hl as [|x l Hl IH Hx]; simpl; constructor.
  - apply IH. intros a b Ha Hb. apply HR; now right.
  - rewrite Forall_forall in *. intros y Hy.
    apply in_map_iff in Hy as [z [<- Hz]].
    apply HR; [now left | now right | now apply Hx].
Qed.

Variable localeCompare : string -> string -> Z.

Lemma rankedBefore_iff (a b : Ranked) :
  rankedBefore localeCompare a b <-> compareRanked localeCompare a b <= 0.
Proof.
  unfold rankedBefore, compareRanked, JS.orElse.
  destruct (Z.eqb_spec (score b - score a) 0); lia.
Qed.

Hypothesis consistent : consistentComparator localeCompare.

Lemma rankedBefore_total (a b : Ranked) :
  rankedBefore localeCompare a b \/ rankedBefore localeCompare b a.
Proof.
  unfold rankedBefore. destruct consistent as [Htot _].
  destruct (Htot (ApiSearchResult.name (result a))
                 (ApiSearchResult.name (result b))); lia.
Qed.

Lemma rankedBefore_trans (a b c : Ranked) :
  rankedBefore localeCompare a b -> rankedBefore localeCompare b c ->
  rankedBefore localeCompare a c.
Proof.
  unfold rankedBefore. destruct consistent as [_ Htr].
  intros [Hab|[Hab Hn]] [Hbc|[Hbc Hm]]; try lia.
  right. split; [lia|]. eapply Htr; eassumption.
Qed.

Lemma compareRanked_total (a b : Ranked) :
  compareRanked localeCompare a b <= 0 \/ compareRanked localeCompare b a <= 0.
Proof. rewrite <- !rankedBefore_iff. apply rankedBefore_total. Qed.

Lemma compareRanked_trans (a b c : Ranked) :
  compareRanked localeCompare a b <= 0 ->
  compareRanked localeCompare b c <= 0 ->
  compareRanked localeCompare a c <= 0.
Proof. rewrite <- !rankedBefore_iff. apply rankedBefore_trans. Qed.

Variable STABLE_APIS : list CamaraApi.t.
Variable INITIAL_APIS : list InitialApi.t.

Lemma combined_sorted (query category status : option string) :
  StronglySorted (rankedBefore localeCompare)
    (combined STABLE_APIS INITIAL_APIS localeCompare query category status).
Proof.
  unfold combined.
  apply sort_sorted with (before := rankedBefore localeCompare).
  - apply rankedBefore_iff.
  - apply rankedBefore_total.
  - apply rankedBefore_trans.
Qed.

End OrderFacts.

Lemma scoreOf_absent (query : option string) (api : Api) :
  absent query -> scoreOf query api = 0.
Proof.
  unfold absent, JS.truthy, scoreOf.
  destruct query as [q|]; trivial.
  destruct (String.eqb q ""); [trivial | discriminate].
Qed.

(** C3, as the service has it.  For every search call the ranked
    sequence, and hence every page cut from it, is ordered by relevance
    score descending, and two records of equal score are ordered by
    display name ascending under the comparison of the host's
    [localeCompare] (any comparator that sorting can rely on): the record
    whose name that comparison ranks lower comes first.  The scores are
    the records' relevance scores, and when the query is absent the
    returned items are in ascending order of name under that same
    comparison. *)
Theorem searchApis_ranked
    (STABLE_APIS : list CamaraApi.t) (INITIAL_APIS : list InitialApi.t)
    (localeCompare : string -> string -> Z)
    (query category status : option string) (limit offset : option Z) :
  consistentComparator localeCompare ->
  let ranked := combined STABLE_APIS INITIAL_APIS localeCompare
                  query category status in
  let page := paged STABLE_APIS INITIAL_APIS localeCompare
                query category status limit offset in
  let r := searchApis STABLE_APIS INITIAL_APIS localeCompare
             query category status limit offset in
  StronglySorted (rankedBefore localeCompare) ranked
  /\ StronglySorted (rankedBefore localeCompare) page
  /\ PaginatedResponse.items r = map result page
  /\ (forall x, In x page ->
        exists api,
          kept STABLE_APIS INITIAL_APIS query category status api
          /\ score x = scoreOf query api /\ result x = project api)
  /\ (absent query ->
      StronglySorted
        (fun a b =>
           localeCompare (ApiSearchResult.name a) (ApiSearchResult.name b) <= 0)
        (PaginatedResponse.items r)).
Proof.
  intros Hc ranked page r.
  assert (Hranked : StronglySorted (rankedBefore localeCompare) ranked)
    by now apply combined_sorted.
  assert (Hpage : StronglySorted (rankedBefore localeCompare) page)
    by now apply slice_sorted.
  assert (Hin : forall x, In x page ->
            exists api,
              kept STABLE_APIS INITIAL_APIS query category status api
              /\ score x = scoreOf query api /\ result x = project api).
  { intros x Hx. apply slice_In, combined_In in Hx as [api [Hk ->]].
    now exists api. }
  repeat split; trivial.
  intros Habs. change (PaginatedResponse.items r) with (map result page).
  apply StronglySorted_map_In with (R := rankedBefore localeCompare); trivial.
  intros a b Ha Hb.
  destruct (Hin a Ha) as [x [_ [Hsa _]]], (Hin b Hb) as [y [_ [Hsb _]]].
  rewrite scoreOf_absent in Hsa, Hsb by assumption.
  unfold rankedBefore. lia.
Qed.

Lemma searchApis_ranked_witness :
  consistentComparator RootCollation.localeCompare
  /\ StronglySorted (rankedBefore RootCollation.localeCompare)
       (Deployed.combined (Some "kyc"%string) None None).
Proof.
  split; [exact rootCollation_consistent|].
  apply (searchApis_ranked Fall25.STABLE_APIS Fall25.INITIAL_APIS
           RootCollation.localeCompare (Some "kyc"%string) None None
           None None rootCollation_consistent).
Defined.

(** C3, as stated, fails on the deployed service.  Listing the auth-fraud
    category without a query returns "Scam Signal" right before
    "SIM Swap", although "SIM Swap" is the smaller name in case-sensitive
    ordinal order (['I'] is below ['c']). *)
Lemma ordinal_name_order_counterexample :
  map ApiSearchResult.name
    (PaginatedResponse.items
       (Deployed.searchApis None (Some "auth-fraud"%string) None None None))
  = ["Call Forwarding Signal"; "Number Recycling"; "Number Verification";
     "One-Time Password SMS"; "Scam Signal"; "SIM Swap";
     "Verified Caller"]%string
  /\ ordinalCompare "SIM Swap" "Scam Signal" = -1
  /\ ~ StronglySorted (rankedBefore ordinalCompare)
         (Deployed.combined None (Some "auth-fraud"%string) None)
  /\ ~ StronglySorted
         (fun a b =>
            ordinalCompare (ApiSearchResult.name a) (ApiSearchResult.name b)
            <= 0)
         (PaginatedResponse.items
            (Deployed.searchApis None (Some "auth-fraud"%string) None
               None None)).
Proof.
  split; [vm_compute; reflexivity|].
  split; [vm_compute; reflexivity|].
  split; intros H.
  - pose proof (StronglySorted_nth_error _ _ H 4%nat 5%nat) as Hn.
    specialize (Hn _ _ ltac:(lia) eq_refl eq_refl).
    vm_compute in Hn. destruct Hn as [Hn|[_ Hn]]; [discriminate | now apply Hn].
  - pose proof (StronglySorted_nth_error _ _ H 4%nat 5%nat) as Hn.
    specialize (Hn _ _ ltac:(lia) eq_refl eq_refl).
    vm_compute in Hn. now apply Hn.
Qed.

(* ------------------------------------------------------------------ *)
(** ** Filtering *)

Section FilterFacts.

Lemma andAlso_false_iff (o : option string) (p : string -> bool) :
  JS.andAlso o p = false
  <-> absent o \/ exists s, o = Some s /\ p s = false.
Proof.
  unfold absent, JS.andAlso, JS.truthy. destruct o as [s|].
  - rewrite andb_false_iff. split.
    + intros [H|H]; [now left | right; now exists s].
    + intros [H|[s' [[= <-] H]]]; [now left | now right].
  - split; [now left | trivial].
Qed.

Lemma passes_eqb (o : option string) (id : string) :
  JS.andAlso o (fun s => negb (String.eqb id s)) = false
  <-> absent o \/ o = Some id.
Proof.
  rewrite andAlso_false_iff. split; (intros [H|H]; [now left | right]).
  - destruct H as [s [-> H]]. apply negb_false_iff, String.eqb_eq in H.
    now subst.
  - exists id. split; trivial. now rewrite String.eqb_refl.
Qed.

(** For a present, non-empty query the last guard tests the score. *)
Lemma score_guard (q : string) (api : Api) :
  q <> ""%string ->
  JS.andAlso (Some q) (fun q => searchScore api q =? 0) = false
  <-> 0 < searchScore api q.
Proof.
  intros Hq. pose proof (searchScore_nonneg api q) as Hnn.
  unfold JS.andAlso. apply String.eqb_neq in Hq. rewrite Hq. simpl.
  destruct (Z.eqb_spec (searchScore api q) 0); split; intros; lia || congruence.
Qed.

Lemma if_false_iff (b : bool) (c : bool) :
  (if b then false else c) = true <-> b = false /\ c = true.
Proof. destruct b; split; intros; try tauto; try discriminate. easy. Qed.

Lemma keepStable_iff (q : string) (category status : option string)
    (a : CamaraApi.t) :
  q <> ""%string ->
  keepStable (Some q) category status a = true
  <-> passesCategory category (OfStable a)
      /\ passesStatus status (OfStable a)
      /\ 0 < searchScore (OfStable a) q.
Proof.
  intros Hq. unfold keepStable, passesCategory, passesStatus.
  rewrite !if_false_iff, !passes_eqb, (score_guard q _ Hq). simpl. tauto.
Qed.

Lemma initial_status_guard (status : option string) :
  match status with
  | Some s => String.eqb s "stable"
  | None => false
  end = false
  /\ JS.andAlso status (fun s => negb (String.eqb s "initial")) = false
  <-> absent status \/ status = Some "initial"%string.
Proof.
  rewrite andAlso_false_iff. unfold absent. destruct status as [s|]; simpl.
  - split.
    + intros [_ [H|[s' [[= <-] H]]]]; [now left | right].
      apply negb_false_iff, String.eqb_eq in H. now subst.
    + intros [H|[= ->]].
      * apply negb_false_iff, String.eqb_eq in H. subst. split; [reflexivity|].
        now left.
      * split; [reflexivity|]. right. now exists "initial"%string.
  - split; [now left | split; [reflexivity | now left]].
Qed.

Lemma keepInitial_iff (q : string) (category status : option string)
    (a : InitialApi.t) :
  q <> ""%string ->
  keepInitial (Some q) category status a = true
  <-> passesCategory category (OfInitial a)
      /\ passesStatus status (OfInitial a)
      /\ 0 < searchScore (OfInitial a) q.
Proof.
  intros Hq. unfold keepInitial, passesCategory, passesStatus.
  rewrite !if_false_iff, passes_eqb, (score_guard q _ Hq).
  pose proof (initial_status_guard status) as Hs. simpl. tauto.
Qed.

Lemma kept_iff_matches (stable : list CamaraApi.t)
    (initial : list InitialApi.t) (q : string)
    (category status : option string) (api : Api) :
  q <> ""%string ->
  kept stable initial (Some q) category status api
  <-> matches stable initial q category status api.
Proof.
  intros Hq. unfold kept, matches, inCatalog. destruct api as [a|a].
  - rewrite (keepStable_iff q category status a Hq). tauto.
  - rewrite (keepInitial_iff q category status a Hq). tauto.
Qed.

Lemma slice_whole {A : Type} (l : list A) (limit : Z) :
  Z.of_nat (length l) <= limit -> JS.slice l 0 (0 + limit) = l.
Proof.
  intros H. rewrite slice_window by lia.
  simpl. apply firstn_all2. lia.
Qed.

Lemma slice_reaches {A : Type} (l : list A) (x : A) (limit : Z) :
  In x l -> 1 <= limit ->
  exists offset, 0 <= offset /\ In x (JS.slice l offset (offset + limit)).
Proof.
  intros Hin Hl. apply In_nth_error in Hin as [i Hi].
  exists (Z.of_nat i). split; [lia|].
  rewrite slice_window by lia. rewrite Nat2Z.id.
  destruct (nth_error_split _ _ Hi) as [l1 [l2 [-> <-]]].
  rewrite skipn_app, skipn_all, Nat.sub_diag. simpl.
  destruct (Z.to_nat limit) as [|n] eqn:E; [lia|]. now left.
Qed.

Lemma project_slug (api : Api) :
  ApiSearchResult.slug (project api) = apiSlug api.
Proof. destruct api; reflexivity. Qed.

(** Every item of every page is a matching record of the catalog. *)
Lemma searchApis_items_match (stable : list CamaraApi.t)
    (initial : list InitialApi.t) (cmp : string -> string -> Z) (q : string)
    (category status : option string) (limit offset : option Z)
    (item : ApiSearchResult.t) :
  q <> ""%string ->
  In item
    (PaginatedResponse.items
       (searchApis stable initial cmp (Some q) category status limit offset)) ->
  exists api, matches stable initial q category status api
              /\ item = project api.
Proof.
  intros Hq Hitem. unfold searchApis in Hitem.
  cbn [PaginatedResponse.items] in Hitem.
  apply in_map_iff in Hitem as [r [<- Hr]].
  apply slice_In, combined_In in Hr as [api [Hk ->]].
  exists api. split; [now apply kept_iff_matches | reflexivity].
Qed.

End FilterFacts.

(** C4.  For every search call with a present, non-empty query, over a
    catalog whose slugs are unique, a record appears in the output if and
    only if it passes the category filter (category absent, or equal to
    the record's category), passes the status filter (status absent, or
    equal to the record's maturity) and scores strictly above zero for the
    query.  Every item of every returned page is such a record, so a
    zero-score record is never returned; every such record is in the
    ranked result sequence, which is returned whole when the page spans
    it, and which the pages of any positive limit run through. *)
Theorem searchApis_filters
    (STABLE_APIS : list CamaraApi.t) (INITIAL_APIS : list InitialApi.t)
    (localeCompare : string -> string -> Z)
    (q : string) (category status : option string) :
  q <> ""%string ->
  uniqueSlugs STABLE_APIS INITIAL_APIS ->
  let search := searchApis STABLE_APIS INITIAL_APIS localeCompare
                  (Some q) category status in
  let ranked := combined STABLE_APIS INITIAL_APIS localeCompare
                  (Some q) category status in
  (forall limit offset item,
     In item (PaginatedResponse.items (search limit offset)) ->
     exists api,
       matches STABLE_APIS INITIAL_APIS q category status api
       /\ item = project api)
  /\ (forall api,
        inCatalog STABLE_APIS INITIAL_APIS api ->
        In (project api) (map result ranked)
        <-> passesCategory category api
            /\ passesStatus status api
            /\ 0 < searchScore api q)
  /\ (forall limit offset,
        JS.orDefault 0 offset = 0 ->
        PaginatedResponse.total (search limit offset)
        <= JS.orDefault 20 limit ->
        PaginatedResponse.items (search limit offset) = map result ranked)
  /\ (forall api limit,
        matches STABLE_APIS INITIAL_APIS q category status api ->
        1 <= JS.orDefault 20 limit ->
        exists offset,
          0 <= offset
          /\ In (project api)
               (PaginatedResponse.items (search limit (Some offset)))).
Proof.
  intros Hq Huniq search ranked.
  assert (Hin : forall item,
            In item (map result ranked)
            <-> exists api,
                  matches STABLE_APIS INITIAL_APIS q category status api
                  /\ item = project api).
  { intros item. rewrite in_map_iff. split.
    - intros [r [<- Hr]]. apply combined_In in Hr as [api [Hk ->]].
      exists api. split; [now apply kept_iff_matches | reflexivity].
    - intros [api [Hm ->]].
      exists {| score := scoreOf (Some q) api; result := project api |}.
      split; [reflexivity|]. apply combined_In. exists api.
      split; [now apply kept_iff_matches | reflexivity]. }
  split; [|split; [|split]].
  - intros limit offset item Hitem.
    now apply (searchApis_items_match _ _ localeCompare q category status
                 limit offset).
  - intros api Hcat. split.
    + intros Hp. apply Hin in Hp as [api' [Hm Heq]].
      assert (api = api') as <-.
      { apply Huniq; trivial; [apply Hm|].
        destruct api, api'; simpl in Heq; now inversion Heq. }
      apply Hm.
    + intros [Hc [Hs Hpos]]. apply Hin. exists api.
      split; [|reflexivity]. now repeat split.
  - intros limit offset Ho Htot.
    unfold search, searchApis, paged in *.
    cbn [PaginatedResponse.items PaginatedResponse.total] in *.
    rewrite Ho. now rewrite slice_whole.
  - intros api limit Hm Hl.
    assert (Hr : In (project api) (map result ranked))
      by (apply Hin; now exists api).
    apply in_map_iff in Hr as [r [Hres Hr]].
    destruct (slice_reaches ranked r (JS.orDefault 20 limit) Hr Hl)
      as [o [Ho Hs]].
    exists o. split; trivial.
    unfold search, searchApis, paged. cbn [PaginatedResponse.items JS.orDefault].
    rewrite <- Hres. now apply in_map.
Qed.

(* ------------------------------------------------------------------ *)
(** ** The literal catalog satisfies the data model *)

Section CatalogFacts.

Lemma inCatalog_allRecords (stable : list CamaraApi.t)
    (initial : list InitialApi.t) (api : Api) :
  inCatalog stable initial api <-> In api (allRecords stable initial).
Proof.
  unfold allRecords. rewrite in_app_iff, !in_map_iff. destruct api as [a|a]; simpl.
  - split.
    + intros H. left. now exists a.
    + intros [[x [[= ->] H]]|[x [[=] _]]]. exact H.
  - split.
    + intros H. right. now exists a.
    + intros [[x [[=] _]]|[x [[= ->] H]]]. exact H.
Qed.

Lemma distinct_inj {A : Type} (f : A -> string) (l : list A) :
  distinct (map f l) = true ->
  forall a b, In a l -> In b l -> f a = f b -> a = b.
Proof.
  induction l as [|x l IH]; simpl; [tauto|].
  rewrite andb_true_iff, negb_true_iff. intros [Hx Hl] a b Ha Hb Hab.
  assert (Hno : forall y, In y l -> f x <> f y).
  { intros y Hy Heq.
    assert (existsb (String.eqb (f x)) (map f l) = true); [|congruence].
    apply existsb_exists. exists (f y).
    split; [now apply in_map | now apply String.eqb_eq]. }
  destruct Ha as [<-|Ha], Hb as [<-|Hb]; trivial.
  - now apply Hno in Hb.
  - symmetry in Hab. now apply Hno in Ha.
  - now apply IH.
Qed.

Lemma fall25_uniqueSlugs :
  uniqueSlugs Fall25.STABLE_APIS Fall25.INITIAL_APIS.
Proof.
  intros a b Ha Hb. apply inCatalog_allRecords in Ha, Hb.
  revert a b Ha Hb. apply distinct_inj. vm_compute. reflexivity.
Qed.

Lemma fall25_lowercaseSlugs (api : Api) :
  inCatalog Fall25.STABLE_APIS Fall25.INITIAL_APIS api -> lowercaseSlug api.
Proof.
  intros H. apply inCatalog_allRecords in H. revert api H.
  apply Forall_forall. unfold lowercaseSlug.
  repeat (constructor; [vm_compute; reflexivity|]). constructor.
Qed.

End CatalogFacts.

Lemma searchApis_filters_witness :
  "kyc"%string <> ""%string
  /\ uniqueSlugs Fall25.STABLE_APIS Fall25.INITIAL_APIS
  /\ forall limit offset item,
       In item
         (PaginatedResponse.items
            (searchApis Fall25.STABLE_APIS Fall25.INITIAL_APIS
               RootCollation.localeCompare (Some "kyc"%string) None None
               limit offset)) ->
       exists api,
         matches Fall25.STABLE_APIS Fall25.INITIAL_APIS "kyc" None None api
         /\ item = project api.
Proof.
  split; [discriminate|]. split; [exact fall25_uniqueSlugs|].
  exact (proj1 (searchApis_filters Fall25.STABLE_APIS Fall25.INITIAL_APIS
                  RootCollation.localeCompare "kyc" None None
                  ltac:(discriminate) fall25_uniqueSlugs)).
Defined.

(* ------------------------------------------------------------------ *)
(** ** The fraud scenario *)

(** C5, as the service has it.  [search(query = "fraud",
    category = "auth-fraud")] on the deployed catalog returns a non-empty
    result, seven records, each of category auth-fraud and each with
    "fraud" in one of its scored fields: its description, name, slug,
    industries or use cases, or its category identifier, which for this
    category always contains it. *)
Theorem fraud_scenario :
  let r := Deployed.searchApis (Some "fraud"%string)
             (Some "auth-fraud"%string) None None None in
  map ApiSearchResult.slug (PaginatedResponse.items r)
  = ["sim-swap"; "call-forwarding-signal"; "scam-signal";
     "number-verification"; "number-recycling"; "one-time-password-sms";
     "verified-caller"]%string
  /\ PaginatedResponse.items r <> []
  /\ Forall (fun item => ApiSearchResult.category item = "auth-fraud"%string)
       (PaginatedResponse.items r)
  /\ Forall
       (fun item =>
          exists api,
            inCatalog Fall25.STABLE_APIS Fall25.INITIAL_APIS api
            /\ project api = item
            /\ (mentionsInText api "fraud"
                \/ containsCI (categoryId (apiCategory api)) "fraud"))
       (PaginatedResponse.items r).
Proof.
  intros r.
  assert (Hm : forall item,
            In item (PaginatedResponse.items r) ->
            exists api,
              matches Fall25.STABLE_APIS Fall25.INITIAL_APIS "fraud"
                (Some "auth-fraud"%string) None api
              /\ item = project api).
  { intros item. apply searchApis_items_match. discriminate. }
  split; [vm_compute; reflexivity|].
  split; [vm_compute; discriminate|].
  split; apply Forall_forall; intros item Hitem;
    destruct (Hm item Hitem) as [api [[Hcat [Hc [_ Hpos]]] ->]].
  - destruct Hc as [Hc|Hc]; [discriminate|].
    injection Hc as Hc.
    destruct api as [a|a];
      cbn [project toSearchResult initialToSearchResult
           ApiSearchResult.category apiCategory] in *; congruence.
  - exists api. split; [exact Hcat|]. split; [reflexivity|].
    apply searchScore_pos; [|exact Hpos].
    apply fall25_lowercaseSlugs. exact Hcat.
Qed.

(** C5, as stated, fails: "One-Time Password SMS" is returned, through its
    category identifier, although neither its description, name, slug,
    industries nor use cases contain "fraud". *)
Lemma fraud_scenario_counterexample :
  let r := Deployed.searchApis (Some "fraud"%string)
             (Some "auth-fraud"%string) None None None in
  let otp := OfStable Fall25.one_time_password_sms in
  In (project otp) (PaginatedResponse.items r)
  /\ ~ mentionsInText otp "fraud"
  /\ ~ Forall
         (fun item =>
            exists api,
              inCatalog Fall25.STABLE_APIS Fall25.INITIAL_APIS api
              /\ project api = item
              /\ mentionsInText api "fraud")
         (PaginatedResponse.items r).
Proof.
  intros r otp.
  assert (Hin : In (project otp) (PaginatedResponse.items r)).
  { apply (nth_error_In _ 5%nat). vm_compute. reflexivity. }
  assert (Hno : ~ mentionsInText otp "fraud").
  { unfold mentionsInText, otp.
    rewrite !containsCI_iff, !Exists_containsCI_iff.
    vm_compute. intuition discriminate. }
  split; [exact Hin|]. split; [exact Hno|].
  intros Hall. rewrite Forall_forall in Hall.
  destruct (Hall _ Hin) as [api [Hcat [Hproj Hmention]]].
  assert (api = otp) as ->; [|exact (Hno Hmention)].
  apply fall25_uniqueSlugs; [exact Hcat | |].
  - change (In Fall25.one_time_password_sms Fall25.STABLE_APIS).
    apply (nth_error_In _ 5%nat). reflexivity.
  - rewrite <- (project_slug api), <- (project_slug otp), Hproj. reflexivity.
Qed.

(* ------------------------------------------------------------------ *)
(** ** Out-of-range limit and offset *)

(** C6, as the service has it.  The engine does not clamp: it hands
    limit and offset to the slice as given and echoes the offset
    unchanged.  With a non-negative limit and offset the page holds
    [min(limit, max(0, total - offset))] records.  A limit and an offset
    within the contract's ranges are what clamping would leave them, and
    the response is then the clamped one.  A limit of 0 gives an empty
    page, which is the response of the clamped limit 1 exactly when the
    offset is at or past the end of the filtered set.  A limit above 100 is
    honoured, and its response is that of the clamped limit 100 exactly
    when at most 100 records remain from the offset on. *)
Theorem searchApis_unclamped
    (STABLE_APIS : list CamaraApi.t) (INITIAL_APIS : list InitialApi.t)
    (localeCompare : string -> string -> Z)
    (query category status : option string) (limit offset : option Z) :
  let l := JS.orDefault 20 limit in
  let o := JS.orDefault 0 offset in
  let search := searchApis STABLE_APIS INITIAL_APIS localeCompare
                  query category status in
  let r := search limit offset in
  PaginatedResponse.offset r = o
  /\ PaginatedResponse.items r
     = map result
         (JS.slice
            (combined STABLE_APIS INITIAL_APIS localeCompare
               query category status) o (o + l))
  /\ (0 <= o -> 0 <= l ->
      PaginatedResponse.count r
      = Z.min l (Z.max 0 (PaginatedResponse.total r - o)))
  /\ (0 <= o -> 1 <= l <= 100 ->
      clampLimit l = l /\ clampOffset o = o
      /\ r = search (Some (clampLimit l)) (Some (clampOffset o)))
  /\ (0 <= o -> l = 0 ->
      PaginatedResponse.items r = []
      /\ (PaginatedResponse.has_more r = true
          <-> o < PaginatedResponse.total r)
      /\ clampLimit l = 1 /\ clampOffset o = o
      /\ (r = search (Some 1) (Some o)
          <-> PaginatedResponse.total r <= o))
  /\ (0 <= o -> 100 < l ->
      clampLimit l = 100 /\ clampOffset o = o
      /\ (r = search (Some 100) (Some o)
          <-> PaginatedResponse.total r - o <= 100)).
Proof.
  intros l o search r.
  set (ranked := combined STABLE_APIS INITIAL_APIS localeCompare
                   query category status).
  assert (Htotal : PaginatedResponse.total r = Z.of_nat (length ranked))
    by reflexivity.
  assert (Hcount : forall lim off : option Z,
            0 <= JS.orDefault 0 off -> 0 <= JS.orDefault 20 lim ->
            PaginatedResponse.count (search lim off)
            = Z.min (JS.orDefault 20 lim)
                (Z.max 0 (Z.of_nat (length ranked) - JS.orDefault 0 off))).
  { intros lim off Ho Hl. subst search. unfold searchApis, paged.
    cbn [PaginatedResponse.count]. now apply slice_window_length. }
  assert (Hsame : forall limit' : Z,
            JS.slice ranked o (o + l) = JS.slice ranked o (o + limit') ->
            r = search (Some limit') (Some o)).
  { intros limit' Hs. subst r search. unfold searchApis, paged.
    cbn [JS.orDefault]. fold l o. fold ranked. now rewrite Hs. }
  assert (Hcounts : forall limit' : Z,
            0 <= o -> 0 <= l -> 0 <= limit' ->
            r = search (Some limit') (Some o) ->
            Z.min l (Z.max 0 (Z.of_nat (length ranked) - o))
            = Z.min limit' (Z.max 0 (Z.of_nat (length ranked) - o))).
  { intros limit' Ho Hl Hl' E.
    apply (f_equal PaginatedResponse.count) in E.
    subst r. rewrite (Hcount limit offset Ho Hl) in E.
    now rewrite (Hcount (Some limit') (Some o) Ho Hl') in E. }
  split; [reflexivity|]. split; [reflexivity|].
  split; [intros Ho Hl; rewrite Htotal; exact (Hcount limit offset Ho Hl)|].
  split; [|split].
  - intros Ho Hl.
    assert (Hcl : clampLimit l = l) by (unfold clampLimit; lia).
    assert (Hco : clampOffset o = o) by (unfold clampOffset; lia).
    split; [exact Hcl|]. split; [exact Hco|].
    rewrite Hcl, Hco. now apply Hsame.
  - intros Ho Hl0.
    assert (Hc0 : PaginatedResponse.count r = 0).
    { subst r. rewrite (Hcount limit offset Ho) by (fold l; lia).
      fold l. lia. }
    split; [|split; [|split; [|split]]].
    + subst r search. unfold searchApis in *.
      cbn [PaginatedResponse.items PaginatedResponse.count] in *.
      destruct (paged _ _ _ _ _ _ _ _); [reflexivity | discriminate].
    + assert (Hm : PaginatedResponse.has_more r
                   = (o + PaginatedResponse.count r
                      <? PaginatedResponse.total r)) by reflexivity.
      rewrite Hm, Hc0, Z.ltb_lt. lia.
    + unfold clampLimit. lia.
    + unfold clampOffset. lia.
    + rewrite Htotal. split.
      * intros E. apply Hcounts in E; lia.
      * intros Hend. apply Hsame. rewrite !slice_window by lia.
        rewrite skipn_all2 by lia. now rewrite !firstn_nil.
  - intros Ho Hl.
    split; [unfold clampLimit; lia|]. split; [unfold clampOffset; lia|].
    rewrite Htotal. split.
    + intros E. apply Hcounts in E; lia.
    + intros Hrest. apply Hsame. rewrite !slice_window by lia.
      rewrite !firstn_all2; trivial; rewrite length_skipn; lia.
Qed.

(** C6, as stated, fails: on the deployed catalog a limit of 0 returns an
    empty page where the clamped call returns one record, and an offset of
    -1 is echoed as -1 with an empty page where the clamped call returns
    the first twenty records from offset 0. *)
Lemma clamping_counterexample :
  let search := Deployed.searchApis None None None in
  let names r := map ApiSearchResult.name (PaginatedResponse.items r) in
  names (search (Some 0) (Some 0)) = []
  /\ names (search (Some (clampLimit 0)) (Some (clampOffset 0)))
     = ["Application Profiles"%string]
  /\ PaginatedResponse.next_offset (search (Some 0) (Some 0)) = Some 0
  /\ PaginatedResponse.count (search (Some 20) (Some (-1))) = 0
  /\ PaginatedResponse.offset (search (Some 20) (Some (-1))) = -1
  /\ PaginatedResponse.count
       (search (Some (clampLimit 20)) (Some (clampOffset (-1)))) = 20
  /\ ~ (forall limit offset,
          search (Some limit) (Some offset)
          = search (Some (clampLimit limit)) (Some (clampOffset offset))).
Proof.
  intros search names.
  repeat (split; [vm_compute; reflexivity|]).
  intros H. specialize (H 0 0).
  apply (f_equal PaginatedResponse.count) in H.
  vm_compute in H. discriminate.
Qed.

(* ------------------------------------------------------------------ *)
(** ** Detail lookup and comparison *)

Section LookupFacts.

Variable STABLE_APIS : list CamaraApi.t.

Lemma getApiDetail_Some (s : string) (d : ApiDetailResult.t) :
  getApiDetail STABLE_APIS s = Some d ->
  ApiDetailResult.slug d = s /\ resolves STABLE_APIS s = true
  /\ exists a, In a STABLE_APIS /\ CamaraApi.slug a = s /\ d = toDetailResult a.
Proof.
  unfold getApiDetail, resolves.
  destruct (find _ STABLE_APIS) as [a|] eqn:E; [|discriminate].
  intros [= <-]. apply find_some in E as [Hin Heq].
  apply String.eqb_eq in Heq. split; [exact Heq|]. split.
  - apply existsb_exists. exists a. split; trivial. now apply String.eqb_eq.
  - now exists a.
Qed.

Lemma getApiDetail_None (s : string) :
  getApiDetail STABLE_APIS s = None
  <-> forall a, In a STABLE_APIS -> CamaraApi.slug a <> s.
Proof.
  unfold getApiDetail.
  destruct (find _ STABLE_APIS) as [a|] eqn:E; split; try discriminate; trivial.
  - apply find_some in E as [Hin Heq]. apply String.eqb_eq in Heq.
    intros H. now apply H in Hin.
  - intros _ a Hin Heq.
    apply (find_none _ _ E) in Hin. apply String.eqb_neq in Hin. contradiction.
Qed.

Lemma getApiDetail_resolves (s : string) :
  resolves STABLE_APIS s = true <-> exists d, getApiDetail STABLE_APIS s = Some d.
Proof.
  split.
  - intros H. destruct (getApiDetail STABLE_APIS s) as [d|] eqn:E; [now exists d|].
    apply existsb_exists in H as [a [Hin Heq]]. apply String.eqb_eq in Heq.
    rewrite getApiDetail_None in E. now apply E in Hin.
  - intros [d H]. now apply getApiDetail_Some in H.
Qed.

(** The details kept by the handler: one per slug that resolves, in the
    order of the request, duplicates included. *)
Lemma details_of_resolved (slugs : list string) :
  Forall2 (fun s d => getApiDetail STABLE_APIS s = Some d)
    (filter (resolves STABLE_APIS) slugs)
    (JS.filterBoolean (map (getApiDetail STABLE_APIS) slugs)).
Proof.
  induction slugs as [|s slugs IH]; simpl; [constructor|].
  destruct (getApiDetail STABLE_APIS s) as [d|] eqn:E.
  - rewrite (proj2 (getApiDetail_resolves s)) by now exists d.
    now constructor.
  - destruct (resolves STABLE_APIS s) eqn:R; [|exact IH].
    apply getApiDetail_resolves in R as [d R]. congruence.
Qed.

Lemma details_slugs (slugs : list string) :
  map ApiDetailResult.slug
    (JS.filterBoolean (map (getApiDetail STABLE_APIS) slugs))
  = filter (resolves STABLE_APIS) slugs.
Proof.
  pose proof (details_of_resolved slugs) as Hdet.
  induction Hdet as [|s d l l' Hsd _ IH]; simpl; [reflexivity|].
  apply getApiDetail_Some in Hsd as [-> _]. now rewrite IH.
Qed.

Lemma compare_outcome (slugs : list string) :
  let details := JS.filterBoolean (map (getApiDetail STABLE_APIS) slugs) in
  length details = length (filter (resolves STABLE_APIS) slugs)
  /\ camara_compare_apis STABLE_APIS slugs
     = if (length details <? 2)%nat
       then ErrorResult
              ("Error: Need at least 2 valid stable API slugs. Valid: "
               ++ JS.join ", " (map CamaraApi.slug STABLE_APIS))
       else Comparison details.
Proof.
  intros details. split.
  - symmetry. eapply Forall2_length, details_of_resolved.
  - unfold camara_compare_apis, errorResult. fold details.
    destruct (Nat.ltb_spec (length details) 2);
      destruct (Z.ltb_spec (Z.of_nat (length details)) 2); trivial; lia.
Qed.

End LookupFacts.

(** C7.  A comparison call looks every requested slug up among the stable
    records and silently drops those that do not resolve.  If at least two
    resolve it produces one detail projection per resolved slug, in the
    caller's order; otherwise, and only then, it reports an error that
    names the valid slugs.  This holds for any number of slugs, the 2 to 5
    of the contract included.  On the deployed catalog,
    [compare(["sim-swap","device-swap"])] yields exactly those two
    projections in that order, and [compare(["sim-swap","not-a-real-slug"])]
    fails with the need-at-least-2-valid-slugs error. *)
Theorem compare_apis_resolves_in_order :
  (forall (stable : list CamaraApi.t) (slugs : list string),
     let resolved := filter (resolves stable) slugs in
     (forall s, In s resolved
                <-> In s slugs
                    /\ exists a, In a stable /\ CamaraApi.slug a = s)
     /\ ((2 <= length resolved)%nat ->
         exists details,
           camara_compare_apis stable slugs = Comparison details
           /\ Forall2 (fun s d => getApiDetail stable s = Some d)
                resolved details
           /\ map ApiDetailResult.slug details = resolved)
     /\ ((length resolved < 2)%nat ->
         camara_compare_apis stable slugs
         = ErrorResult
             ("Error: Need at least 2 valid stable API slugs. Valid: "
              ++ JS.join ", " (map CamaraApi.slug stable))))
  /\ Deployed.camara_compare_apis ["sim-swap"; "device-swap"]%string
     = Comparison [toDetailResult Fall25.sim_swap;
                   toDetailResult Fall25.device_swap]
  /\ Deployed.camara_compare_apis ["sim-swap"; "not-a-real-slug"]%string
     = ErrorResult
         ("Error: Need at least 2 valid stable API slugs. Valid: "
          ++ "number-verification, sim-swap, location-verification, "
          ++ "device-reachability-status, device-roaming-status, "
          ++ "one-time-password-sms, quality-on-demand, qos-profiles, "
          ++ "simple-edge-discovery, device-swap").
Proof.
  split; [|split; vm_compute; reflexivity].
  intros stable slugs resolved.
  destruct (compare_outcome stable slugs) as [Hlen Hout].
  pose proof (details_of_resolved stable slugs) as Hdet. fold resolved in Hdet, Hlen.
  split; [|split].
  - intros s. unfold resolved, resolves.
    rewrite filter_In, existsb_exists.
    split; intros [Hs [a [Ha Heq]]]; (split; [exact Hs|]); exists a;
      (split; [exact Ha|]); now apply String.eqb_eq.
  - intros H2. eexists. split; [|split; [exact Hdet|]].
    + rewrite Hout.
      destruct (Nat.ltb_spec
                  (length (JS.filterBoolean (map (getApiDetail stable) slugs)))
                  2); [lia | reflexivity].
    + apply details_slugs.
  - intros H2. rewrite Hout.
    destruct (Nat.ltb_spec
                (length (JS.filterBoolean (map (getApiDetail stable) slugs)))
                2); [reflexivity | lia].
Qed.

(** C10.  The comparison does not deduplicate its input: every occurrence
    of a valid stable slug resolves on its own and counts on its own
    towards the two required, so [compare([s, s])] succeeds for any valid
    stable slug [s] and returns its detail projection twice;
    [compare(["sim-swap","sim-swap"])] does so on the deployed catalog. *)
Theorem compare_apis_keeps_duplicates :
  (forall (stable : list CamaraApi.t) (s : string) (d : ApiDetailResult.t),
     getApiDetail stable s = Some d ->
     camara_compare_apis stable [s; s] = Comparison [d; d])
  /\ (forall (stable : list CamaraApi.t) (slugs : list string) details,
        camara_compare_apis stable slugs = Comparison details ->
        forall s, resolves stable s = true ->
          count_occ string_dec (map ApiDetailResult.slug details) s
          = count_occ string_dec slugs s)
  /\ Deployed.camara_compare_apis ["sim-swap"; "sim-swap"]%string
     = Comparison [toDetailResult Fall25.sim_swap;
                   toDetailResult Fall25.sim_swap].
Proof.
  split; [|split; [|vm_compute; reflexivity]].
  - intros stable s d H. unfold camara_compare_apis. simpl. now rewrite H.
  - intros stable slugs details Hcmp s Hs.
    destruct (compare_outcome stable slugs) as [_ Hout].
    rewrite Hout in Hcmp.
    destruct (length _ <? 2)%nat; [discriminate|]. injection Hcmp as <-.
    rewrite details_slugs. clear -Hs.
    induction slugs as [|x slugs IH]; simpl; [reflexivity|].
    destruct (string_dec x s) as [->|Hne].
    + rewrite Hs. simpl. destruct (string_dec s s); [|contradiction].
      now rewrite IH.
    + destruct (resolves stable x); simpl; [|exact IH].
      destruct (string_dec x s); [contradiction | exact IH].
Qed.

Section StableSearchFacts.

Lemma keepInitial_stable (query category : option string) (a : InitialApi.t) :
  keepInitial query category (Some "stable"%string) a = false.
Proof.
  unfold keepInitial.
  destruct (JS.andAlso category _); reflexivity.
Qed.

Lemma getApiDetail_In (stable : list CamaraApi.t) (a : CamaraApi.t) :
  In a stable ->
  exists d, getApiDetail stable (CamaraApi.slug a) = Some d
            /\ ApiDetailResult.slug d = CamaraApi.slug a.
Proof.
  intros Hin.
  destruct (getApiDetail stable (CamaraApi.slug a)) as [d|] eqn:E.
  - exists d. split; [reflexivity|]. now apply getApiDetail_Some in E.
  - rewrite getApiDetail_None in E. now apply E in Hin.
Qed.

End StableSearchFacts.

(** C8.  Over a catalog whose slugs are unique: the detail lookup succeeds
    on the slug of every record that a search with [status = "stable"]
    returns, whatever the other arguments; and it returns the not-found
    signal for every slug that no stable record carries, the slug of every
    initial-variant record included. *)
Theorem detail_lookup_matches_stable_search
    (STABLE_APIS : list CamaraApi.t) (INITIAL_APIS : list InitialApi.t)
    (localeCompare : string -> string -> Z) :
  uniqueSlugs STABLE_APIS INITIAL_APIS ->
  (forall query category limit offset item,
     In item
       (PaginatedResponse.items
          (searchApis STABLE_APIS INITIAL_APIS localeCompare
             query category (Some "stable"%string) limit offset)) ->
     exists d,
       getApiDetail STABLE_APIS (ApiSearchResult.slug item) = Some d
       /\ ApiDetailResult.slug d = ApiSearchResult.slug item)
  /\ (forall slug,
        (forall a, In a STABLE_APIS -> CamaraApi.slug a <> slug) ->
        getApiDetail STABLE_APIS slug = None)
  /\ (forall a,
        In a INITIAL_APIS ->
        getApiDetail STABLE_APIS (InitialApi.slug a) = None).
Proof.
  intros Huniq. split; [|split].
  - intros query category limit offset item Hitem.
    unfold searchApis in Hitem. cbn [PaginatedResponse.items] in Hitem.
    apply in_map_iff in Hitem as [r [<- Hr]].
    apply slice_In, combined_In in Hr as [[a|a] [[Hin Hk] ->]].
    + cbn [result project]. now apply getApiDetail_In.
    + rewrite keepInitial_stable in Hk. discriminate.
  - intros slug H. now apply getApiDetail_None.
  - intros a Ha. apply getApiDetail_None. intros b Hb Heq.
    assert (H : OfStable b = OfInitial a); [|discriminate].
    apply Huniq; trivial.
Qed.

Lemma detail_lookup_matches_stable_search_witness :
  uniqueSlugs Fall25.STABLE_APIS Fall25.INITIAL_APIS
  /\ forall a,
       In a Fall25.INITIAL_APIS ->
       getApiDetail Fall25.STABLE_APIS (InitialApi.slug a) = None.
Proof.
  split; [exact fall25_uniqueSlugs|].
  exact (proj2 (proj2 (detail_lookup_matches_stable_search
                         Fall25.STABLE_APIS Fall25.INITIAL_APIS
                         RootCollation.localeCompare fall25_uniqueSlugs))).
Defined.

(* ------------------------------------------------------------------ *)
(** ** The host's sorting algorithm *)

(** The embedding sorts by insertion.  Nothing is lost by that: with a
    comparison that sorting can rely on, every stable sort of the
    candidates is the array [combined], whichever algorithm the host
    uses. *)
Lemma combined_any_stable_sort
    (STABLE_APIS : list CamaraApi.t) (INITIAL_APIS : list InitialApi.t)
    (localeCompare : string -> string -> Z)
    (query category status : option string) :
  consistentComparator localeCompare ->
  forall output,
    stableSortOf (compareRanked localeCompare)
      (candidates STABLE_APIS INITIAL_APIS query category status) output ->
    output = combined STABLE_APIS INITIAL_APIS localeCompare
               query category status.
Proof.
  intros Hc output Hsort. unfold combined.
  apply stableSort_unique; trivial.
  - now apply compareRanked_total.
  - now apply compareRanked_trans.
Qed.

(* ================================================================== *)
(** * Properties of the category listing and of the detail tool *)
(* ================================================================== *)

Section ListingFacts.

Lemma categoryId_eqb (a b : ApiCategory) :
  String.eqb (categoryId a) (categoryId b) = true <-> a = b.
Proof.
  destruct a, b; split; intros H; try reflexivity; discriminate.
Qed.

Lemma categoryId_nonempty (c : ApiCategory) : categoryId c <> ""%string.
Proof. destruct c; discriminate. Qed.

(** Every element falls under exactly one of the eight categories. *)
Lemma category_sizes {A : Type} (cat : A -> ApiCategory) (l : list A) :
  fold_right Z.add 0
    (map (fun entry : ApiCategory * CategoryMeta.t =>
            Z.of_nat
              (length
                 (filter (fun a => String.eqb (categoryId (cat a))
                                     (categoryId (fst entry))) l)))
         API_CATEGORIES)
  = Z.of_nat (length l).
Proof.
  induction l as [|a l IH]; [reflexivity|].
  unfold API_CATEGORIES in *. cbn [map fold_right fst filter] in *.
  destruct (cat a); cbn [categoryId String.eqb Ascii.eqb Bool.eqb] in *;
    cbn [length]; lia.
Qed.

Lemma keepStable_by_category (c : string) (a : CamaraApi.t) :
  c <> ""%string ->
  keepStable None (Some c) None a
  = String.eqb (categoryId (CamaraApi.category a)) c.
Proof.
  intros Hc. apply String.eqb_neq in Hc.
  unfold keepStable, JS.andAlso. rewrite Hc. cbn [negb andb].
  now destruct (String.eqb _ c).
Qed.

Lemma keepInitial_by_category (c : string) (a : InitialApi.t) :
  c <> ""%string ->
  keepInitial None (Some c) None a
  = String.eqb (categoryId (InitialApi.category a)) c.
Proof.
  intros Hc. apply String.eqb_neq in Hc.
  unfold keepInitial, JS.andAlso. rewrite Hc. cbn [negb andb].
  now destruct (String.eqb _ c).
Qed.

Lemma listCategories_In (stable : list CamaraApi.t)
    (initial : list InitialApi.t) (e : CategoryResult.t) :
  In e (listCategories stable initial) ->
  exists c,
    CategoryResult.category_id e = categoryId c
    /\ CategoryResult.api_count e
       = Z.of_nat
           (length (filter (fun a => String.eqb
                                       (categoryId (CamaraApi.category a))
                                       (categoryId c)) stable))
         + Z.of_nat
             (length (filter (fun a => String.eqb
                                         (categoryId (InitialApi.category a))
                                         (categoryId c)) initial))
    /\ CategoryResult.apis e
       = map (fun a => summarize (OfStable a))
           (filter (fun a => String.eqb (categoryId (CamaraApi.category a))
                               (categoryId c)) stable)
         ++ map (fun a => summarize (OfInitial a))
              (filter (fun a => String.eqb (categoryId (InitialApi.category a))
                                  (categoryId c)) initial).
Proof.
  unfold listCategories. rewrite in_map_iff.
  intros [[c meta] [<- _]]. exists c. repeat split.
Qed.

End ListingFacts.

(** X1.  The category listing has one entry per category, in the fixed
    order of the eight identifiers; every entry's [api_count] is the
    length of its [apis]; and the counts add up to the size of the
    catalog: every record, stable or initial, is counted exactly once. *)
Theorem listCategories_counts
    (STABLE_APIS : list CamaraApi.t) (INITIAL_APIS : list InitialApi.t) :
  let cats := listCategories STABLE_APIS INITIAL_APIS in
  map CategoryResult.category_id cats = categoryIds
  /\ Forall (fun e => CategoryResult.api_count e
                      = Z.of_nat (length (CategoryResult.apis e))) cats
  /\ fold_right Z.add 0 (map CategoryResult.api_count cats)
     = Z.of_nat (length STABLE_APIS) + Z.of_nat (length INITIAL_APIS).
Proof.
  intros cats. split; [reflexivity|]. split.
  - apply Forall_forall. intros e He.
    apply listCategories_In in He as [c [_ [-> ->]]].
    rewrite length_app, !length_map. lia.
  - pose proof (category_sizes CamaraApi.category STABLE_APIS) as Hs.
    pose proof (category_sizes InitialApi.category INITIAL_APIS) as Hi.
    subst cats. unfold listCategories, API_CATEGORIES in *.
    cbn [map fold_right fst CategoryResult.api_count] in *. lia.
Qed.

(** X2.  A summary is listed under a category exactly when it is the
    summary of a catalog record of that category; within an entry the
    stable records come first, then the initial ones, each group in
    catalog order. *)
Theorem listCategories_members
    (STABLE_APIS : list CamaraApi.t) (INITIAL_APIS : list InitialApi.t) :
  Forall
    (fun e =>
       (forall x,
          In x (CategoryResult.apis e)
          <-> exists api,
                inCatalog STABLE_APIS INITIAL_APIS api
                /\ categoryId (apiCategory api) = CategoryResult.category_id e
                /\ x = summarize api)
       /\ CategoryResult.apis e
          = map (fun a => summarize (OfStable a))
              (filter (fun a => String.eqb (categoryId (CamaraApi.category a))
                                  (CategoryResult.category_id e)) STABLE_APIS)
            ++ map (fun a => summarize (OfInitial a))
                 (filter (fun a => String.eqb
                                     (categoryId (InitialApi.category a))
                                     (CategoryResult.category_id e))
                    INITIAL_APIS))
    (listCategories STABLE_APIS INITIAL_APIS).
Proof.
  apply Forall_forall. intros e He.
  apply listCategories_In in He as [c [Hid [_ Hapis]]].
  rewrite Hid, Hapis. split; [|reflexivity].
  intros x. rewrite in_app_iff, !in_map_iff. split.
  - intros [[a [<- Ha]]|[a [<- Ha]]]; apply filter_In in Ha as [Hin Hc];
      apply String.eqb_eq in Hc.
    + now exists (OfStable a).
    + now exists (OfInitial a).
  - intros [[a|a] [Hin [Hc ->]]]; [left | right]; exists a;
      (split; [reflexivity|]); apply filter_In;
      (split; [exact Hin | now apply String.eqb_eq]).
Qed.

(** X3.  The category listing agrees with the search engine: for every
    category entry, [api_count] is the [total] that a search filtered by
    that category alone reports, whatever the limit and offset, and the
    listed slugs are those of the search's ranked sequence, up to order. *)
Theorem listCategories_agrees_with_search
    (STABLE_APIS : list CamaraApi.t) (INITIAL_APIS : list InitialApi.t)
    (localeCompare : string -> string -> Z) :
  Forall
    (fun e =>
       (forall limit offset,
          PaginatedResponse.total
            (searchApis STABLE_APIS INITIAL_APIS localeCompare
               None (Some (CategoryResult.category_id e)) None limit offset)
          = CategoryResult.api_count e)
       /\ Permutation
            (map ApiSummary.slug (CategoryResult.apis e))
            (map (fun r => ApiSearchResult.slug (result r))
               (combined STABLE_APIS INITIAL_APIS localeCompare
                  None (Some (CategoryResult.category_id e)) None)))
    (listCategories STABLE_APIS INITIAL_APIS).
Proof.
  apply Forall_forall. intros e He.
  apply listCategories_In in He as [c [Hid [Hcount Hapis]]].
  pose proof (categoryId_nonempty c) as Hne.
  assert (Hs : filter (keepStable None (Some (categoryId c)) None) STABLE_APIS
               = filter (fun a => String.eqb (categoryId (CamaraApi.category a))
                                    (categoryId c)) STABLE_APIS).
  { apply filter_ext. intros a. now apply keepStable_by_category. }
  assert (Hi : filter (keepInitial None (Some (categoryId c)) None) INITIAL_APIS
               = filter (fun a => String.eqb
                                    (categoryId (InitialApi.category a))
                                    (categoryId c)) INITIAL_APIS).
  { apply filter_ext. intros a. now apply keepInitial_by_category. }
  rewrite Hid, Hcount, Hapis. split.
  - intros limit offset. unfold searchApis. cbn [PaginatedResponse.total].
    rewrite combined_length, Hs, Hi. lia.
  - unfold combined. rewrite sort_perm.
    unfold candidates, stableResults, initialResults.
    rewrite Hs, Hi, !map_app, !map_map. reflexivity.
Qed.

Lemma kept_inCatalog (stable : list CamaraApi.t) (initial : list InitialApi.t)
    (query category status : option string) (api : Api) :
  kept stable initial query category status api ->
  inCatalog stable initial api.
Proof. destruct api; intros [H _]; exact H. Qed.

(** X4.  The detail tool agrees with the search engine.  Over a catalog
    with unique slugs, for every item of every search response: if the
    item is a stable record (it carries a website URL) the detail tool
    succeeds on its slug and returns the same name, slug, category,
    status, description, version, repository URL and website URL; if it is
    an initial record the detail tool answers with the not-found error
    that names the slug and lists the valid stable slugs. *)
Theorem detail_tool_agrees_with_search
    (STABLE_APIS : list CamaraApi.t) (INITIAL_APIS : list InitialApi.t)
    (localeCompare : string -> string -> Z)
    (query category status : option string) (limit offset : option Z)
    (item : ApiSearchResult.t) :
  uniqueSlugs STABLE_APIS INITIAL_APIS ->
  In item
    (PaginatedResponse.items
       (searchApis STABLE_APIS INITIAL_APIS localeCompare
          query category status limit offset)) ->
  match ApiSearchResult.website_url item with
  | Some url =>
      exists d,
        camara_get_api_detail STABLE_APIS (ApiSearchResult.slug item)
        = ToolValue d
        /\ ApiDetailResult.name d = ApiSearchResult.name item
        /\ ApiDetailResult.slug d = ApiSearchResult.slug item
        /\ ApiDetailResult.category d = ApiSearchResult.category item
        /\ ApiDetailResult.status d = ApiSearchResult.status item
        /\ ApiDetailResult.description d = ApiSearchResult.description item
        /\ ApiDetailResult.latest_version d = ApiSearchResult.version item
        /\ ApiDetailResult.repository_url d
           = ApiSearchResult.repository_url item
        /\ ApiDetailResult.website_url d = url
  | None =>
      camara_get_api_detail STABLE_APIS (ApiSearchResult.slug item)
      = ToolError
          ("Error: API '" ++ ApiSearchResult.slug item
           ++ "' not found. Valid stable API slugs: "
           ++ JS.join ", " (map CamaraApi.slug STABLE_APIS))
  end.
Proof.
  intros Huniq Hitem. unfold searchApis in Hitem.
  cbn [PaginatedResponse.items] in Hitem.
  apply in_map_iff in Hitem as [r [<- Hr]].
  apply slice_In, combined_In in Hr as [api [Hk ->]].
  apply kept_inCatalog in Hk. cbn [result].
  destruct api as [a|a]; cbn [project toSearchResult initialToSearchResult
                              ApiSearchResult.website_url ApiSearchResult.slug].
  - unfold camara_get_api_detail.
    destruct (getApiDetail STABLE_APIS (CamaraApi.slug a)) as [d|] eqn:E.
    + apply getApiDetail_Some in E as [_ [_ [b [Hb [Hslug ->]]]]].
      assert (Heq : OfStable b = OfStable a) by now apply Huniq.
      injection Heq as ->. exists (toDetailResult a). repeat split.
    + rewrite getApiDetail_None in E. now apply E in Hk.
  - unfold camara_get_api_detail.
    destruct (getApiDetail STABLE_APIS (InitialApi.slug a)) as [d|] eqn:E;
      [|reflexivity].
    apply getApiDetail_Some in E as [_ [_ [b [Hb [Hslug _]]]]].
    assert (Heq : OfStable b = OfInitial a) by now apply Huniq.
    discriminate.
Qed.

Lemma detail_tool_agrees_with_search_witness :
  uniqueSlugs Fall25.STABLE_APIS Fall25.INITIAL_APIS
  /\ exists d,
       camara_get_api_detail Fall25.STABLE_APIS "sim-swap" = ToolValue d
       /\ ApiDetailResult.name d = "SIM Swap"%string.
Proof.
  split; [exact fall25_uniqueSlugs|].
  assert (Hin : In (toSearchResult Fall25.sim_swap)
                  (PaginatedResponse.items
                     (searchApis Fall25.STABLE_APIS Fall25.INITIAL_APIS
                        RootCollation.localeCompare (Some "sim swap"%string)
                        None None None None))).
  { apply (nth_error_In _ 0%nat). vm_compute. reflexivity. }
  destruct (detail_tool_agrees_with_search
              Fall25.STABLE_APIS Fall25.INITIAL_APIS
              RootCollation.localeCompare (Some "sim swap"%string)
              None None None None (toSearchResult Fall25.sim_swap)
              fall25_uniqueSlugs Hin) as [d [Hd [Hname _]]].
  exists d. split; [exact Hd | exact Hname].
Defined.

(* ================================================================== *)
(** * Properties of the use-case grouping *)
(* ================================================================== *)

Section IndustryMapFacts.

Lemma ownProperty_None {V : Type} (m : list (string * V)) (key : string) :
  ownProperty m key = None <-> ~ In key (map fst m).
Proof.
  induction m as [|[k v] m IH]; simpl; [tauto|].
  destruct (String.eqb_spec k key) as [->|Hne].
  - split; [discriminate | intros H; exfalso; apply H; now left].
  - rewrite IH. tauto.
Qed.

Lemma ownProperty_In {V : Type} (m : list (string * V)) (key : string) (v : V) :
  ownProperty m key = Some v -> In (key, v) m.
Proof.
  induction m as [|[k w] m IH]; simpl; [discriminate|].
  destruct (String.eqb_spec k key) as [->|Hne].
  - intros [= ->]. now left.
  - intros H. right. now apply IH.
Qed.

Lemma pushAt_keys (m : IndustryMap) (key : string) (e : IndustryEntry.t) :
  map fst (pushAt m key e) = map fst m.
Proof.
  induction m as [|[k g] m IH]; simpl; [reflexivity|].
  destruct (String.eqb k key); simpl; [reflexivity | now rewrite IH].
Qed.

Lemma ownProperty_pushAt (m : IndustryMap) (k key : string)
    (e : IndustryEntry.t) :
  ownProperty (pushAt m k e) key
  = if String.eqb k key
    then option_map (fun g => g ++ [e]) (ownProperty m key)
    else ownProperty m key.
Proof.
  induction m as [|[k' g] m IH]; simpl.
  - now destruct (String.eqb k key).
  - destruct (String.eqb_spec k' k) as [->|Hne]; simpl.
    + destruct (String.eqb k key); reflexivity.
    + destruct (String.eqb_spec k' key) as [->|Hne'].
      * destruct (String.eqb_spec k key) as [->|_]; [contradiction | reflexivity].
      * exact IH.
Qed.

Lemma ownProperty_app {V : Type} (m : list (string * V)) (k key : string)
    (v : V) :
  ownProperty (m ++ [(k, v)]) key
  = match ownProperty m key with
    | Some w => Some w
    | None => if String.eqb k key then Some v else None
    end.
Proof.
  induction m as [|[k' w] m IH]; simpl; [reflexivity|].
  destruct (String.eqb k' key); [reflexivity | exact IH].
Qed.

Lemma pushAt_Forall (P : string * list IndustryEntry.t -> Prop)
    (m : IndustryMap) (key : string) (e : IndustryEntry.t) :
  (forall k g, P (k, g) -> P (k, g ++ [e])) ->
  Forall P m -> Forall P (pushAt m key e).
Proof.
  intros HP. induction 1 as [|[k g] m Hp Hm IH]; simpl; [constructor|].
  destruct (String.eqb k key); constructor; auto.
Qed.

(** One push: it raises exactly on an inherited name that is not an own
    key; otherwise it appends to the label's group, creating it if
    needed, and leaves the other groups alone. *)
Lemma pushEntry_spec (m : IndustryMap) (k : string) (e : IndustryEntry.t) :
  wellFormedMap m ->
  match pushEntry m k e with
  | None => existsb (String.eqb k) objectPrototypeKeys = true
  | Some m' =>
      existsb (String.eqb k) objectPrototypeKeys = false
      /\ wellFormedMap m'
      /\ forall key,
           ownProperty m' key
           = if String.eqb k key
             then Some (match ownProperty m key with
                        | Some g => g ++ [e]
                        | None => [e]
                        end)
             else ownProperty m key
  end.
Proof.
  intros [Hnd Hall]. unfold pushEntry.
  destruct (ownProperty m k) as [g|] eqn:E.
  - apply ownProperty_In in E as Hin.
    rewrite Forall_forall in Hall. destruct (Hall _ Hin) as [Hk _].
    split; [exact Hk|]. split.
    + split; [now rewrite pushAt_keys|].
      apply pushAt_Forall; [|now apply Forall_forall].
      intros k' g' [H1 H2]. split; [exact H1|]. now destruct g'.
    + intros key. rewrite ownProperty_pushAt.
      destruct (String.eqb_spec k key) as [<-|_]; [|reflexivity].
      now rewrite E.
  - destruct (existsb (String.eqb k) objectPrototypeKeys) eqn:Hp; [reflexivity|].
    split; [reflexivity|]. split.
    + split.
      * rewrite map_app. simpl. apply NoDup_app_remove_l with (l := []).
        simpl. apply Permutation_NoDup with (l := k :: map fst m).
        -- apply Permutation_cons_append.
        -- constructor; [now apply ownProperty_None | exact Hnd].
      * apply Forall_app. split; [exact Hall|].
        constructor; [|constructor]. split; [exact Hp | discriminate].
    + intros key. rewrite ownProperty_app.
      destruct (String.eqb_spec k key) as [<-|Hne].
      * now rewrite E.
      * now destruct (ownProperty m key).
Qed.

Lemma pushedUnder_cons (key k : string) (e : IndustryEntry.t)
    (pushes : list (string * IndustryEntry.t)) :
  pushedUnder key ((k, e) :: pushes)
  = if String.eqb k key then e :: pushedUnder key pushes
    else pushedUnder key pushes.
Proof. unfold pushedUnder. simpl. now destruct (String.eqb k key). Qed.

(** A sequence of pushes: each label's group grows by the entries pushed
    under it, in order. *)
Lemma applyPushes_spec (pushes : list (string * IndustryEntry.t))
    (m : IndustryMap) :
  wellFormedMap m ->
  match applyPushes pushes m with
  | None =>
      exists p, In p pushes
                /\ existsb (String.eqb (fst p)) objectPrototypeKeys = true
  | Some m' =>
      (forall p, In p pushes ->
                 existsb (String.eqb (fst p)) objectPrototypeKeys = false)
      /\ wellFormedMap m'
      /\ forall key,
           ownProperty m' key
           = match ownProperty m key, pushedUnder key pushes with
             | Some g, ps => Some (g ++ ps)
             | None, [] => None
             | None, ps => Some ps
             end
  end.
Proof.
  revert m. induction pushes as [|[k e] pushes IH]; intros m Hwf.
  - simpl. split; [intros p []|]. split; [exact Hwf|].
    intros key. destruct (ownProperty m key); [now rewrite app_nil_r | reflexivity].
  - cbn [applyPushes]. pose proof (pushEntry_spec m k e Hwf) as Hp.
    destruct (pushEntry m k e) as [m1|].
    + destruct Hp as [Hk [Hwf1 Hown1]].
      specialize (IH m1 Hwf1).
      destruct (applyPushes pushes m1) as [m'|].
      * destruct IH as [Hall [Hwf' Hown']].
        split; [|split; [exact Hwf'|]].
        -- intros p [<-|Hp]; [exact Hk | now apply Hall].
        -- intros key. rewrite Hown', Hown1, pushedUnder_cons.
           destruct (String.eqb k key).
           ++ destruct (ownProperty m key); [now rewrite <- app_assoc | reflexivity].
           ++ reflexivity.
      * destruct IH as [p [Hin Hp]]. exists p. split; [now right | exact Hp].
    + exists (k, e). split; [now left | exact Hp].
Qed.

Lemma applyPushes_app (p1 p2 : list (string * IndustryEntry.t))
    (m : IndustryMap) :
  applyPushes (p1 ++ p2) m
  = match applyPushes p1 m with
    | None => None
    | Some m' => applyPushes p2 m'
    end.
Proof.
  revert m. induction p1 as [|[k e] p1 IH]; intros m; simpl; [reflexivity|].
  destruct (pushEntry m k e); [apply IH | reflexivity].
Qed.

Lemma scanIndustries_pushes (industry : option string) (api : CamaraApi.t)
    (industries : list string) (m : IndustryMap) :
  scanIndustries industry api industries m
  = applyPushes
      (map (fun ind => (ind, industryEntry api))
         (filter (fun ind => negb (skipsIndustry industry ind)) industries))
      m.
Proof.
  revert m. induction industries as [|ind rest IH]; intros m; simpl;
    [reflexivity|].
  destruct (skipsIndustry industry ind); simpl; [apply IH|].
  destruct (pushEntry m ind (industryEntry api)); [apply IH | reflexivity].
Qed.

(** The two nested loops perform [industryPushes], in that order. *)
Lemma scanApis_pushes (industry : option string) (apis : list CamaraApi.t)
    (m : IndustryMap) :
  scanApis industry apis m = applyPushes (industryPushes apis industry) m.
Proof.
  revert m. induction apis as [|a rest IH]; intros m; [reflexivity|].
  cbn [scanApis]. unfold industryPushes. cbn [flat_map].
  rewrite applyPushes_app, <- scanIndustries_pushes.
  destruct (scanIndustries industry a (CamaraApi.industries a) m);
    [apply IH | reflexivity].
Qed.

Lemma wellFormedMap_nil : wellFormedMap [].
Proof. split; constructor. Qed.

Lemma industryPushes_In (stable : list CamaraApi.t) (industry : option string)
    (p : string * IndustryEntry.t) :
  In p (industryPushes stable industry)
  <-> exists a, In a stable /\ In (fst p) (CamaraApi.industries a)
                /\ skipsIndustry industry (fst p) = false
                /\ snd p = industryEntry a.
Proof.
  unfold industryPushes. rewrite in_flat_map. split.
  - intros [a [Ha Hp]]. apply in_map_iff in Hp as [ind [<- Hind]].
    apply filter_In in Hind as [Hin Hs]. apply negb_true_iff in Hs.
    now exists a.
  - intros [a [Ha [Hin [Hs He]]]]. exists a. split; [exact Ha|].
    apply in_map_iff. exists (fst p). split.
    + destruct p; simpl in *. now rewrite He.
    + apply filter_In. split; [exact Hin | now apply negb_true_iff].
Qed.

Lemma pushedUnder_In (key : string) (pushes : list (string * IndustryEntry.t))
    (e : IndustryEntry.t) :
  In e (pushedUnder key pushes) <-> In (key, e) pushes.
Proof.
  unfold pushedUnder. rewrite in_map_iff. split.
  - intros [[k e'] [<- Hp]]. apply filter_In in Hp as [Hin Hk].
    simpl in *. apply String.eqb_eq in Hk. now subst.
  - intros Hin. exists (key, e). split; [reflexivity|].
    apply filter_In. split; [exact Hin | apply String.eqb_refl].
Qed.

End IndustryMapFacts.

Section UseCasesFacts.

Lemma buildIndustryMap_spec (stable : list CamaraApi.t)
    (industry : option string) :
  match buildIndustryMap stable industry with
  | None =>
      exists p, In p (industryPushes stable industry)
                /\ existsb (String.eqb (fst p)) objectPrototypeKeys = true
  | Some m =>
      (forall p, In p (industryPushes stable industry) ->
                 existsb (String.eqb (fst p)) objectPrototypeKeys = false)
      /\ wellFormedMap m
      /\ forall key,
           ownProperty m key
           = match pushedUnder key (industryPushes stable industry) with
             | [] => None
             | ps => Some ps
             end
  end.
Proof.
  unfold buildIndustryMap. rewrite scanApis_pushes.
  exact (applyPushes_spec (industryPushes stable industry) []
           wellFormedMap_nil).
Qed.

Lemma industryPushes_ext (stable : list CamaraApi.t)
    (i1 i2 : option string) :
  (forall ind, skipsIndustry i1 ind = skipsIndustry i2 ind) ->
  industryPushes stable i1 = industryPushes stable i2.
Proof.
  intros H. unfold industryPushes. apply flat_map_ext. intros a.
  f_equal. apply filter_ext. intros ind. now rewrite H.
Qed.

Lemma toLowerCase_empty (s : string) :
  JS.toLowerCase s = ""%string <-> s = ""%string.
Proof. destruct s; simpl; split; intros H; try reflexivity; discriminate. Qed.

Lemma setOf_In (l seen : list string) (x : string) :
  In x (setOf l seen) <-> In x l /\ ~ In x seen.
Proof.
  revert seen. induction l as [|y l IH]; intros seen; simpl; [tauto|].
  destruct (existsb (String.eqb y) seen) eqn:E.
  - apply existsb_exists in E as [z [Hz Hyz]]. apply String.eqb_eq in Hyz.
    subst z. rewrite IH. split; [tauto|].
    intros [[->|H] Hn]; [contradiction | tauto].
  - assert (Hy : ~ In y seen).
    { intros Hy. assert (existsb (String.eqb y) seen = true); [|congruence].
      apply existsb_exists. exists y. split; [exact Hy | apply String.eqb_refl]. }
    simpl. rewrite IH. simpl. split.
    + intros [->|[H1 H2]]; [tauto|]. split; [tauto|]. tauto.
    + intros [[->|H1] H2]; [now left|].
      destruct (string_dec y x) as [->|Hne]; [now left|]. right.
      split; [exact H1|]. intros [?|?]; tauto.
Qed.

Lemma setOf_NoDup (l seen : list string) : NoDup (setOf l seen).
Proof.
  revert seen. induction l as [|y l IH]; intros seen; simpl; [constructor|].
  destruct (existsb (String.eqb y) seen); [apply IH|].
  constructor; [|apply IH].
  rewrite setOf_In. intros [_ H]. apply H. now left.
Qed.

Lemma string_compare_trans (a b c : string) :
  String.compare a b <> Gt -> String.compare b c <> Gt ->
  String.compare a c <> Gt.
Proof.
  revert b c. induction a as [|x a IH]; intros [|y b] [|z c]; simpl;
    try congruence.
  unfold Ascii.compare.
  destruct (N.compare_spec (N_of_ascii x) (N_of_ascii y)) as [Hxy|Hxy|Hxy];
    try congruence.
  - rewrite Hxy.
    destruct (N.compare_spec (N_of_ascii y) (N_of_ascii z)); try congruence.
    apply IH.
  - destruct (N.compare_spec (N_of_ascii y) (N_of_ascii z)) as [Hyz|Hyz|Hyz];
      try congruence; intros _ _.
    + now rewrite <- Hyz, (proj2 (N.compare_lt_iff _ _) Hxy).
    + rewrite (proj2 (N.compare_lt_iff (N_of_ascii x) (N_of_ascii z)));
        [discriminate | lia].
Qed.

Lemma ordinalCompare_le (a b : string) :
  ordinalCompare a b <= 0 <-> String.compare a b <> Gt.
Proof.
  unfold ordinalCompare. destruct (String.compare a b); split; try lia; congruence.
Qed.

Lemma ordinalCompare_consistent : consistentComparator ordinalCompare.
Proof.
  split.
  - intros a b. rewrite !ordinalCompare_le, (String.compare_antisym a b).
    destruct (String.compare b a); simpl; [left | right | left]; congruence.
  - intros a b c. rewrite !ordinalCompare_le. apply string_compare_trans.
Qed.

End UseCasesFacts.

(** X5.  When the use-case tool builds its map, the map's keys are
    distinct and are exactly the industry labels, spelled as in the
    catalog, that pass the filter and that some stable record lists; the
    group of a label is never empty and holds, in catalog order, one entry
    for each listing of that label by a stable record. *)
Theorem useCases_groups (STABLE_APIS : list CamaraApi.t)
    (industry : option string) (m : IndustryMap) :
  buildIndustryMap STABLE_APIS industry = Some m ->
  NoDup (map fst m)
  /\ (forall key group,
        ownProperty m key = Some group
        <-> group <> []
            /\ group = pushedUnder key (industryPushes STABLE_APIS industry))
  /\ (forall key,
        (exists group, ownProperty m key = Some group)
        <-> skipsIndustry industry key = false
            /\ exists a, In a STABLE_APIS /\ In key (CamaraApi.industries a))
  /\ (forall key group e,
        ownProperty m key = Some group ->
        In e group
        <-> exists a, In a STABLE_APIS /\ In key (CamaraApi.industries a)
                      /\ e = industryEntry a).
Proof.
  intros Hm. pose proof (buildIndustryMap_spec STABLE_APIS industry) as H.
  rewrite Hm in H. destruct H as [_ [[Hnd _] Hown]].
  assert (Hgroup : forall key group,
            ownProperty m key = Some group
            <-> group <> []
                /\ group = pushedUnder key
                             (industryPushes STABLE_APIS industry)).
  { intros key group. rewrite Hown.
    destruct (pushedUnder key (industryPushes STABLE_APIS industry)) as [|e ps].
    - split; [discriminate | intros [Hne ->]; contradiction].
    - split; [intros [= <-]; split; [discriminate | reflexivity]
             | intros [_ ->]; reflexivity]. }
  assert (Hin : forall key e,
            In e (pushedUnder key (industryPushes STABLE_APIS industry))
            <-> exists a, In a STABLE_APIS
                          /\ In key (CamaraApi.industries a)
                          /\ skipsIndustry industry key = false
                          /\ e = industryEntry a).
  { intros key e. rewrite pushedUnder_In, industryPushes_In. reflexivity. }
  split; [exact Hnd|]. split; [exact Hgroup|]. split.
  - intros key. split.
    + intros [group Hg]. apply Hgroup in Hg as [Hne ->].
      destruct (pushedUnder key _) as [|e ps] eqn:E; [contradiction|].
      assert (He : In e (pushedUnder key
                           (industryPushes STABLE_APIS industry)))
        by (rewrite E; now left).
      apply Hin in He as [a [Ha [Hk [Hs _]]]]. split; [exact Hs|]. now exists a.
    + intros [Hs [a [Ha Hk]]].
      exists (pushedUnder key (industryPushes STABLE_APIS industry)).
      apply Hgroup. split; [|reflexivity].
      intros Hnil.
      assert (He : In (industryEntry a)
                     (pushedUnder key (industryPushes STABLE_APIS industry))).
      { apply Hin. now exists a. }
      rewrite Hnil in He. destruct He.
  - intros key group e Hg. apply Hgroup in Hg as [Hne ->].
    assert (Hs : skipsIndustry industry key = false).
    { destruct (pushedUnder key _) as [|e0 ps] eqn:E; [contradiction|].
      assert (He : In e0 (pushedUnder key
                            (industryPushes STABLE_APIS industry)))
        by (rewrite E; now left).
      now apply Hin in He as [_ [_ [_ [Hs _]]]]. }
    rewrite Hin. split.
    + intros [a [Ha [Hk [_ He]]]]. now exists a.
    + intros [a [Ha [Hk He]]]. now exists a.
Qed.

Lemma useCases_groups_witness :
  exists m,
    buildIndustryMap Fall25.STABLE_APIS (Some "bank"%string) = Some m
    /\ NoDup (map fst m).
Proof.
  destruct (buildIndustryMap Fall25.STABLE_APIS (Some "bank"%string))
    as [m|] eqn:E; [|vm_compute in E; discriminate].
  exists m. split; [reflexivity|].
  exact (proj1 (useCases_groups Fall25.STABLE_APIS (Some "bank"%string) m E)).
Defined.

(** X6.  The outcome of the use-case tool.  It raises exactly when a
    label that passes the filter is a property name inherited from
    [Object.prototype]; it reports the no-APIs error, quoting the filter
    and listing the available industries, only if every label of every
    stable record is skipped; otherwise it returns a non-empty map.
    Without a filter (absent or empty) no label is skipped, and on the
    deployed catalog the tool never raises, whatever the filter. *)
Theorem useCases_outcome :
  (forall (stable : list CamaraApi.t) (industry : option string),
     match camara_use_cases stable industry with
     | None =>
         exists a ind,
           In a stable /\ In ind (CamaraApi.industries a)
           /\ skipsIndustry industry ind = false
           /\ In ind objectPrototypeKeys
     | Some (ToolError text) =>
         (forall a ind,
            In a stable -> In ind (CamaraApi.industries a) ->
            skipsIndustry industry ind = true)
         /\ text = ("Error: No APIs found for industry '"
                    ++ templateOf industry ++ "'. Available: "
                    ++ JS.join ", " (allIndustries stable))%string
     | Some (ToolValue m) =>
         m <> [] /\ buildIndustryMap stable industry = Some m
         /\ forall a ind,
              In a stable -> In ind (CamaraApi.industries a) ->
              skipsIndustry industry ind = false ->
              ~ In ind objectPrototypeKeys
     end)
  /\ (forall industry ind,
        JS.truthy industry = false -> skipsIndustry industry ind = false)
  /\ (forall industry,
        camara_use_cases Fall25.STABLE_APIS industry <> None).
Proof.
  assert (Hgen : forall (stable : list CamaraApi.t) (industry : option string),
     match camara_use_cases stable industry with
     | None =>
         exists a ind,
           In a stable /\ In ind (CamaraApi.industries a)
           /\ skipsIndustry industry ind = false
           /\ In ind objectPrototypeKeys
     | Some (ToolError text) =>
         (forall a ind,
            In a stable -> In ind (CamaraApi.industries a) ->
            skipsIndustry industry ind = true)
         /\ text = ("Error: No APIs found for industry '"
                    ++ templateOf industry ++ "'. Available: "
                    ++ JS.join ", " (allIndustries stable))%string
     | Some (ToolValue m) =>
         m <> [] /\ buildIndustryMap stable industry = Some m
         /\ forall a ind,
              In a stable -> In ind (CamaraApi.industries a) ->
              skipsIndustry industry ind = false ->
              ~ In ind objectPrototypeKeys
     end).
  { intros stable industry. unfold camara_use_cases.
    pose proof (buildIndustryMap_spec stable industry) as H.
    destruct (buildIndustryMap stable industry) as [m|].
    - destruct H as [Hproto [_ Hown]].
      destruct (Z.eqb_spec (Z.of_nat (length m)) 0) as [Hz|Hz].
      + destruct m as [|p m]; [|simpl in Hz; lia].
        unfold toolError. split; [|reflexivity].
        intros a ind Ha Hind.
        destruct (skipsIndustry industry ind) eqn:Hs; [reflexivity|].
        exfalso. specialize (Hown ind). cbn [ownProperty] in Hown.
        assert (He : In (industryEntry a)
                       (pushedUnder ind (industryPushes stable industry))).
        { apply pushedUnder_In, industryPushes_In. now exists a. }
        destruct (pushedUnder ind (industryPushes stable industry));
          [destruct He | discriminate].
      + split; [intros ->; now apply Hz|]. split; [reflexivity|].
        intros a ind Ha Hind Hs Hin.
        assert (Hp : In (ind, industryEntry a) (industryPushes stable industry)).
        { apply industryPushes_In. now exists a. }
        apply Hproto in Hp. cbn [fst] in Hp.
        assert (existsb (String.eqb ind) objectPrototypeKeys = true);
          [|congruence].
        apply existsb_exists. exists ind.
        split; [exact Hin | apply String.eqb_refl].
    - destruct H as [p [Hin Hp]].
      apply industryPushes_In in Hin as [a [Ha [Hind [Hs _]]]].
      exists a, (fst p). repeat split; trivial.
      apply existsb_exists in Hp as [k [Hk Heq]].
      apply String.eqb_eq in Heq. now subst. }
  split; [exact Hgen|]. split.
  - intros industry ind Ht. unfold skipsIndustry, JS.andAlso.
    unfold JS.truthy in Ht. destruct industry as [i|]; [|reflexivity].
    now rewrite Ht.
  - intros industry Hnone. specialize (Hgen Fall25.STABLE_APIS industry).
    rewrite Hnone in Hgen. destruct Hgen as [a [ind [Ha [Hind [_ Hproto]]]]].
    assert (Hall : forallb
                     (fun a => forallb
                                 (fun ind => negb (existsb (String.eqb ind)
                                                     objectPrototypeKeys))
                                 (CamaraApi.industries a))
                     Fall25.STABLE_APIS = true) by (vm_compute; reflexivity).
    rewrite forallb_forall in Hall. specialize (Hall a Ha).
    rewrite forallb_forall in Hall. specialize (Hall ind Hind).
    apply negb_true_iff in Hall.
    assert (existsb (String.eqb ind) objectPrototypeKeys = true);
      [|congruence].
    apply existsb_exists. exists ind. split; [exact Hproto | apply String.eqb_refl].
Qed.

(** X7.  The industry filter of the use-case tool is case-insensitive:
    two filters with the same lower-casing select the same map, so one
    call returns a map exactly when the other does, and it is the same
    map; an empty filter selects what no filter selects. *)
Theorem useCases_filter_case_insensitive (STABLE_APIS : list CamaraApi.t)
    (q q' : string) :
  JS.toLowerCase q = JS.toLowerCase q' ->
  buildIndustryMap STABLE_APIS (Some q) = buildIndustryMap STABLE_APIS (Some q')
  /\ (forall m,
        camara_use_cases STABLE_APIS (Some q) = Some (ToolValue m)
        <-> camara_use_cases STABLE_APIS (Some q') = Some (ToolValue m))
  /\ buildIndustryMap STABLE_APIS (Some ""%string)
     = buildIndustryMap STABLE_APIS None.
Proof.
  intros Hq.
  assert (Hskip : forall ind,
            skipsIndustry (Some q) ind = skipsIndustry (Some q') ind).
  { intros ind. unfold skipsIndustry, JS.andAlso. rewrite Hq. f_equal. f_equal.
    destruct (String.eqb_spec q ""), (String.eqb_spec q' ""); trivial.
    - subst q. simpl in Hq. symmetry in Hq.
      apply (proj1 (toLowerCase_empty q')) in Hq. contradiction.
    - subst q'. simpl in Hq.
      apply (proj1 (toLowerCase_empty q)) in Hq. contradiction. }
  assert (Hmap : buildIndustryMap STABLE_APIS (Some q)
                 = buildIndustryMap STABLE_APIS (Some q')).
  { unfold buildIndustryMap. rewrite !scanApis_pushes.
    now rewrite (industryPushes_ext STABLE_APIS _ _ Hskip). }
  split; [exact Hmap|]. split.
  - intros m. unfold camara_use_cases. rewrite Hmap.
    destruct (buildIndustryMap STABLE_APIS (Some q')) as [m'|]; [|tauto].
    destruct (Z.of_nat (length m') =? 0); [|tauto].
    unfold toolError. split; discriminate.
  - unfold buildIndustryMap. rewrite !scanApis_pushes.
    now rewrite (industryPushes_ext STABLE_APIS (Some ""%string) None).
Qed.

Lemma useCases_filter_case_insensitive_witness :
  JS.toLowerCase "BANK" = JS.toLowerCase "bank"
  /\ buildIndustryMap Fall25.STABLE_APIS (Some "BANK"%string)
     = buildIndustryMap Fall25.STABLE_APIS (Some "bank"%string).
Proof.
  split; [reflexivity|].
  exact (proj1 (useCases_filter_case_insensitive Fall25.STABLE_APIS
                  "BANK" "bank" eq_refl)).
Defined.

Lemma StronglySorted_strict (l : list string) :
  NoDup l ->
  StronglySorted (fun a b => ordinalCompare a b <= 0) l ->
  StronglySorted (fun a b => String.compare a b = Lt) l.
Proof.
  intros Hnd Hs. induction Hs as [|x l Hl IH Hx]; constructor.
  - apply IH. now inversion Hnd.
  - inversion Hnd as [|? ? Hnotin _]; subst.
    rewrite Forall_forall in *. intros y Hy. specialize (Hx y Hy).
    apply ordinalCompare_le in Hx.
    destruct (String.compare x y) eqn:E; [|reflexivity|contradiction].
    apply String.compare_eq_iff in E. now subst.
Qed.

(** X8.  The industries that the no-APIs error lists are exactly the
    industry labels of the stable records, each once, in strictly
    ascending case-sensitive ordinal order. *)
Theorem allIndustries_sorted_distinct (STABLE_APIS : list CamaraApi.t) :
  StronglySorted (fun a b => String.compare a b = Lt)
    (allIndustries STABLE_APIS)
  /\ NoDup (allIndustries STABLE_APIS)
  /\ forall x,
       In x (allIndustries STABLE_APIS)
       <-> exists a, In a STABLE_APIS /\ In x (CamaraApi.industries a).
Proof.
  assert (Hnd : NoDup (allIndustries STABLE_APIS)).
  { unfold allIndustries.
    apply Permutation_NoDup
      with (l := setOf (flat_map CamaraApi.industries STABLE_APIS) []).
    - symmetry. apply sort_perm.
    - apply setOf_NoDup. }
  split; [|split; [exact Hnd|]].
  - apply StronglySorted_strict; [exact Hnd|].
    unfold allIndustries.
    destruct ordinalCompare_consistent as [Htot Htr].
    apply sort_sorted with (before := fun a b => ordinalCompare a b <= 0);
      [reflexivity | exact Htot | exact Htr].
  - intros x. unfold allIndustries.
    rewrite sort_In, setOf_In, in_flat_map. simpl. tauto.
Qed.

(* ================================================================== *)
(** * Properties of the migration guide *)
(* ================================================================== *)

Section SplitFacts.
Local Open Scope string_scope.

Lemma prefix_dot (c : ascii) (s : string) :
  String.prefix "." (String c s) = true <-> c = "."%char.
Proof.
  cbn [String.prefix]. destruct (ascii_dec "." c) as [<-|Hne].
  - now destruct s.
  - split; [discriminate | intros ->; contradiction].
Qed.

Lemma includes_dot_cons (c : ascii) (s : string) :
  JS.includes (String c s) "." = false ->
  c <> "."%char /\ JS.includes s "." = false.
Proof.
  cbn [JS.includes]. rewrite orb_false_iff. intros [Hp Hs]. split; [|exact Hs].
  intros ->. now rewrite (proj2 (prefix_dot "." s) eq_refl) in Hp.
Qed.

Lemma append_cons_snoc (cur : string) (c : ascii) (s : string) :
  (cur ++ String c "") ++ s = cur ++ String c s.
Proof. induction cur as [|x cur IH]; simpl; [reflexivity | now rewrite IH]. Qed.

Lemma append_empty_r (s : string) : s ++ "" = s.
Proof. induction s as [|x s IH]; simpl; [reflexivity | now rewrite IH]. Qed.

(** Up to the first dot the splitter only collects characters. *)
Lemma splitAux_dot_head (major rest cur : string) :
  JS.includes major "." = false ->
  JSString.splitAux "." (major ++ String "." rest) 0 cur
  = (cur ++ major) :: JSString.splitAux "." rest 0 "".
Proof.
  revert cur. induction major as [|c major IH]; intros cur Hno.
  - cbn [append JSString.splitAux].
    rewrite (proj2 (prefix_dot "." rest) eq_refl). cbn [String.length Nat.sub].
    now rewrite append_empty_r.
  - apply includes_dot_cons in Hno as [Hc Hno].
    cbn [append JSString.splitAux].
    destruct (String.prefix "." (String c (major ++ String "." rest))) eqn:E.
    + apply prefix_dot in E. contradiction.
    + rewrite IH by exact Hno. now rewrite append_cons_snoc.
Qed.

Lemma splitAux_dot_none (s cur : string) :
  JS.includes s "." = false ->
  JSString.splitAux "." s 0 cur = [cur ++ s].
Proof.
  revert cur. induction s as [|c s IH]; intros cur Hno.
  - cbn [JSString.splitAux]. now rewrite append_empty_r.
  - apply includes_dot_cons in Hno as [Hc Hno]. cbn [JSString.splitAux].
    destruct (String.prefix "." (String c s)) eqn:E.
    + apply prefix_dot in E. contradiction.
    + rewrite IH by exact Hno. now rewrite append_cons_snoc.
Qed.

(** [version.split(".")[0]] is the major component. *)
Lemma split_major (version major : string) :
  majorComponent version major ->
  hd_error (JSString.split version ".") = Some major.
Proof.
  intros [Hno [->|[rest ->]]]; unfold JSString.split; cbn [String.eqb].
  - now rewrite splitAux_dot_none.
  - change (major ++ "." ++ rest) with (major ++ String "." rest).
    now rewrite splitAux_dot_head.
Qed.

End SplitFacts.

(** X9.  The migration guide classifies an upgrade by the major
    components of the two versions, the text before their first dot: the
    upgrade is major exactly when they differ.  A major upgrade comes with
    eight migration steps, any other with six, and an upgrade from a
    version to itself is never major. *)
Theorem migration_major_upgrade (STABLE_APIS : list CamaraApi.t)
    (slug : string) (from_version : option string) (g : MigrationGuide.t)
    (fromMajor toMajor : string) :
  camara_migration_guide STABLE_APIS slug from_version = ToolValue g ->
  majorComponent (MigrationGuide.from_version g) fromMajor ->
  majorComponent (MigrationGuide.to_version g) toMajor ->
  (MigrationGuide.is_major_upgrade g = true <-> fromMajor <> toMajor)
  /\ length (MigrationGuide.migration_steps g)
     = (if MigrationGuide.is_major_upgrade g then 8 else 6)%nat
  /\ (MigrationGuide.from_version g = MigrationGuide.to_version g ->
      MigrationGuide.is_major_upgrade g = false).
Proof.
  unfold camara_migration_guide.
  destruct (find _ STABLE_APIS) as [api|]; [|discriminate].
  cbv zeta. intros [= <-]. cbn [MigrationGuide.from_version MigrationGuide.to_version
                      MigrationGuide.is_major_upgrade
                      MigrationGuide.migration_steps].
  intros Hf Ht. rewrite (split_major _ _ Hf), (split_major _ _ Ht).
  cbn [differs]. split; [|split].
  - rewrite negb_true_iff. split.
    + intros H. now apply String.eqb_neq.
    + intros H. now apply String.eqb_neq.
  - destruct (negb (String.eqb fromMajor toMajor)); reflexivity.
  - intros Heq. rewrite Heq in Hf.
    pose proof (split_major _ _ Hf) as H1. pose proof (split_major _ _ Ht) as H2.
    rewrite H1 in H2. injection H2 as ->. now rewrite String.eqb_refl.
Qed.

Lemma migration_major_upgrade_witness :
  exists g,
    camara_migration_guide Fall25.STABLE_APIS "sim-swap" (Some "1.0.0"%string)
    = ToolValue g
    /\ majorComponent (MigrationGuide.from_version g) "1"
    /\ majorComponent (MigrationGuide.to_version g) "2"
    /\ (MigrationGuide.is_major_upgrade g = true <-> "1"%string <> "2"%string).
Proof.
  eexists. split; [reflexivity|].
  assert (Hf : majorComponent "1.0.0" "1")
    by (split; [reflexivity | right; now exists "0.0"%string]).
  assert (Ht : majorComponent "2.1.0" "2")
    by (split; [reflexivity | right; now exists "1.0"%string]).
  split; [exact Hf|]. split; [exact Ht|].
  exact (proj1 (migration_major_upgrade Fall25.STABLE_APIS "sim-swap"
                  (Some "1.0.0"%string) _ "1" "2" eq_refl Hf Ht)).
Defined.

(** X10.  The migration guide accepts exactly the slugs the detail lookup
    accepts and describes the same record: its target is the detail's
    latest version, its history is that version followed by the detail's
    previous versions, and its source version is the requested one, or,
    when none is given, the first previous version, or "0.x" when there
    is none.  For any other slug it answers with the not-found error that
    lists the valid slugs. *)
Theorem migration_guide_follows_detail (STABLE_APIS : list CamaraApi.t)
    (slug : string) (from_version : option string) :
  match getApiDetail STABLE_APIS slug with
  | Some d =>
      exists g,
        camara_migration_guide STABLE_APIS slug from_version = ToolValue g
        /\ MigrationGuide.api g = ApiDetailResult.name d
        /\ MigrationGuide.slug g = slug
        /\ MigrationGuide.to_version g = ApiDetailResult.latest_version d
        /\ MigrationGuide.version_history g
           = ApiDetailResult.latest_version d
             :: ApiDetailResult.previous_versions d
        /\ MigrationGuide.from_version g
           = orString from_version
               (orString (hd_error (ApiDetailResult.previous_versions d))
                  "0.x")
  | None =>
      camara_migration_guide STABLE_APIS slug from_version
      = ToolError ("Error: API '" ++ slug ++ "' not found. Valid slugs: "
                   ++ JS.join ", " (map CamaraApi.slug STABLE_APIS))
  end.
Proof.
  unfold getApiDetail, camara_migration_guide.
  destruct (find _ STABLE_APIS) as [api|] eqn:E; [|reflexivity].
  apply find_some in E as [_ Heq]. apply String.eqb_eq in Heq.
  eexists. split; [reflexivity|]. repeat split. exact Heq.
Qed.

(* ================================================================== *)
(** * Further properties of the search engine *)
(* ================================================================== *)

Section PagingFacts.
Context {A : Type}.

Lemma firstn_then_firstn (s : list A) (n n' : nat) :
  firstn n s ++ firstn n' (skipn (Nat.min n (length s)) s)
  = firstn (n + n') s.
Proof.
  revert s. induction n as [|n IH]; intros s; [reflexivity|].
  destruct s as [|x s]; simpl.
  - now rewrite firstn_nil.
  - now rewrite IH.
Qed.

Lemma firstn_skipn_chain (l : list A) (o n n' : nat) :
  firstn n (skipn o l)
  ++ firstn n' (skipn (o + Nat.min n (length l - o)) l)
  = firstn (n + n') (skipn o l).
Proof.
  rewrite <- firstn_then_firstn, length_skipn, skipn_skipn.
  now rewrite (Nat.add_comm o).
Qed.

End PagingFacts.

(** X11.  Pages chain.  For a non-negative limit and offset, a page
    followed by the page that starts where it ended is the page of the
    combined length; a page without [has_more] runs to the end of the
    ranked sequence; and a page with [has_more] and a limit of at least 1
    is full, so following [next_offset] always advances. *)
Theorem searchApis_pages_chain
    (STABLE_APIS : list CamaraApi.t) (INITIAL_APIS : list InitialApi.t)
    (localeCompare : string -> string -> Z)
    (query category status : option string) (limit limit' offset : Z) :
  0 <= limit -> 0 <= limit' -> 0 <= offset ->
  let search := searchApis STABLE_APIS INITIAL_APIS localeCompare
                  query category status in
  let ranked := combined STABLE_APIS INITIAL_APIS localeCompare
                  query category status in
  let page := search (Some limit) (Some offset) in
  PaginatedResponse.items page
  ++ PaginatedResponse.items
       (search (Some limit') (Some (offset + PaginatedResponse.count page)))
  = PaginatedResponse.items (search (Some (limit + limit')) (Some offset))
  /\ (PaginatedResponse.has_more page = false ->
      PaginatedResponse.items page
      = skipn (Z.to_nat offset) (map result ranked))
  /\ (PaginatedResponse.has_more page = true -> 1 <= limit ->
      PaginatedResponse.count page = limit
      /\ PaginatedResponse.next_offset page = Some (offset + limit)).
Proof.
  intros Hl Hl' Ho search ranked page.
  assert (Hcount : PaginatedResponse.count page
                   = Z.min limit (Z.max 0 (Z.of_nat (length ranked) - offset))).
  { subst page search. unfold searchApis, paged.
    cbn [PaginatedResponse.count JS.orDefault]. now apply slice_window_length. }
  assert (Hitems : forall l o, 0 <= l -> 0 <= o ->
            PaginatedResponse.items (search (Some l) (Some o))
            = map result (firstn (Z.to_nat l) (skipn (Z.to_nat o) ranked))).
  { intros l o H1 H2. subst search. unfold searchApis, paged.
    cbn [PaginatedResponse.items JS.orDefault]. now rewrite slice_window. }
  assert (Hmore : PaginatedResponse.has_more page
                  = (offset + PaginatedResponse.count page
                     <? Z.of_nat (length ranked))) by reflexivity.
  split; [|split].
  - assert (Hc0 : 0 <= PaginatedResponse.count page) by lia.
    subst page.
    rewrite (Hitems limit offset), (Hitems (limit + limit') offset),
            (Hitems limit' _) by lia.
    rewrite <- map_app. f_equal.
    rewrite Hcount.
    replace (Z.to_nat (offset
                       + Z.min limit
                           (Z.max 0 (Z.of_nat (length ranked) - offset))))
      with (Z.to_nat offset
            + Nat.min (Z.to_nat limit) (length ranked - Z.to_nat offset))%nat
      by lia.
    rewrite firstn_skipn_chain. f_equal. lia.
  - intros Hno. rewrite Hmore in Hno. apply Z.ltb_ge in Hno.
    subst page. rewrite Hitems by lia. rewrite skipn_map. f_equal.
    apply firstn_all2. rewrite length_skipn. lia.
  - intros Hyes Hl1. rewrite Hmore in Hyes. apply Z.ltb_lt in Hyes.
    assert (Hc : PaginatedResponse.count page = limit) by lia.
    split; [exact Hc|].
    assert (Hn : PaginatedResponse.next_offset page
                 = if offset + PaginatedResponse.count page
                      <? Z.of_nat (length ranked)
                   then Some (offset + PaginatedResponse.count page)
                   else None) by reflexivity.
    rewrite Hn, Hc. destruct (Z.ltb_spec (offset + limit)
                                (Z.of_nat (length ranked))); [reflexivity | lia].
Qed.

Lemma searchApis_pages_chain_witness :
  0 <= 5 /\ 0 <= 5 /\ 0 <= 0
  /\ PaginatedResponse.has_more
       (searchApis Fall25.STABLE_APIS Fall25.INITIAL_APIS
          RootCollation.localeCompare None None (Some "stable"%string)
          (Some 5) (Some 0)) = true
  /\ PaginatedResponse.count
       (searchApis Fall25.STABLE_APIS Fall25.INITIAL_APIS
          RootCollation.localeCompare None None (Some "stable"%string)
          (Some 5) (Some 0)) = 5.
Proof.
  split; [lia|]. split; [lia|]. split; [lia|].
  split; [vm_compute; reflexivity|].
  refine (proj1 (proj2 (proj2 (searchApis_pages_chain
            Fall25.STABLE_APIS Fall25.INITIAL_APIS RootCollation.localeCompare
            None None (Some "stable"%string) 5 5 0 _ _ _)) _ _));
    try lia. vm_compute. reflexivity.
Defined.

Section NarrowingFacts.

Lemma andAlso_relax (o o' : option string) (p : string -> bool) :
  o' = o \/ absent o' ->
  JS.andAlso o p = false -> JS.andAlso o' p = false.
Proof.
  intros [->|Habs] H; [exact H|].
  apply andAlso_false_iff. now left.
Qed.

Lemma keepStable_relax (q c s q' c' s' : option string) (a : CamaraApi.t) :
  q' = q \/ absent q' -> c' = c \/ absent c' -> s' = s \/ absent s' ->
  keepStable q c s a = true -> keepStable q' c' s' a = true.
Proof.
  intros Hq Hc Hs. unfold keepStable. rewrite !if_false_iff.
  intros [H1 [H2 [H3 _]]].
  rewrite (andAlso_relax _ _ _ Hc H1), (andAlso_relax _ _ _ Hs H2),
          (andAlso_relax _ _ _ Hq H3). tauto.
Qed.

Lemma keepInitial_relax (q c s q' c' s' : option string) (a : InitialApi.t) :
  q' = q \/ absent q' -> c' = c \/ absent c' -> s' = s \/ absent s' ->
  keepInitial q c s a = true -> keepInitial q' c' s' a = true.
Proof.
  intros Hq Hc Hs. unfold keepInitial. rewrite !if_false_iff.
  intros [H1 [H2 [H3 [H4 _]]]].
  rewrite (andAlso_relax _ _ _ Hc H1), (andAlso_relax _ _ _ Hs H3),
          (andAlso_relax _ _ _ Hq H4).
  assert (Hst : match s' with
                | Some x => String.eqb x "stable"
                | None => false
                end = false).
  { destruct Hs as [->|Habs]; [exact H2|].
    unfold absent, JS.truthy in Habs. destruct s' as [x|]; [|reflexivity].
    apply negb_false_iff, String.eqb_eq in Habs. now subst. }
  rewrite Hst. tauto.
Qed.

Lemma filter_length_le {A : Type} (f g : A -> bool) (l : list A) :
  (forall a, f a = true -> g a = true) ->
  (length (filter f l) <= length (filter g l))%nat.
Proof.
  intros H. induction l as [|a l IH]; simpl; [lia|].
  destruct (f a) eqn:Ef.
  - rewrite (H a Ef). simpl. lia.
  - destruct (g a); simpl; lia.
Qed.

End NarrowingFacts.

(** X12.  Filters only narrow.  Dropping the query, the category or the
    status from a search (any subset of them) never loses a result: every
    record returned with the filters is in the ranked sequence without
    them, and [total] does not decrease. *)
Theorem searchApis_filters_narrow
    (STABLE_APIS : list CamaraApi.t) (INITIAL_APIS : list InitialApi.t)
    (localeCompare : string -> string -> Z)
    (q c s q' c' s' : option string) :
  q' = q \/ absent q' -> c' = c \/ absent c' -> s' = s \/ absent s' ->
  (forall item,
     In item (map result
                (combined STABLE_APIS INITIAL_APIS localeCompare q c s)) ->
     In item (map result
                (combined STABLE_APIS INITIAL_APIS localeCompare q' c' s')))
  /\ forall limit offset limit' offset',
       PaginatedResponse.total
         (searchApis STABLE_APIS INITIAL_APIS localeCompare q c s
            limit offset)
       <= PaginatedResponse.total
            (searchApis STABLE_APIS INITIAL_APIS localeCompare q' c' s'
               limit' offset').
Proof.
  intros Hq Hc Hs. split.
  - intros item. rewrite !in_map_iff.
    intros [r [<- Hr]]. apply combined_In in Hr as [api [Hk ->]].
    exists {| score := scoreOf q' api; result := project api |}.
    split; [reflexivity|]. apply combined_In. exists api.
    split; [|reflexivity].
    destruct api as [a|a]; destruct Hk as [Hin Hk]; (split; [exact Hin|]).
    + now apply (keepStable_relax q c s).
    + now apply (keepInitial_relax q c s).
  - intros limit offset limit' offset'. unfold searchApis.
    cbn [PaginatedResponse.total]. rewrite !combined_length.
    pose proof (filter_length_le (keepStable q c s) (keepStable q' c' s')
                  STABLE_APIS
                  (fun a => keepStable_relax q c s q' c' s' a Hq Hc Hs)).
    pose proof (filter_length_le (keepInitial q c s) (keepInitial q' c' s')
                  INITIAL_APIS
                  (fun a => keepInitial_relax q c s q' c' s' a Hq Hc Hs)).
    lia.
Qed.

Lemma searchApis_filters_narrow_witness :
  (Some "fraud"%string = Some "fraud"%string \/ absent (Some "fraud"%string))
  /\ (None = Some "auth-fraud"%string \/ absent None)
  /\ (None = Some "stable"%string \/ absent None)
  /\ forall limit offset limit' offset',
       PaginatedResponse.total
         (searchApis Fall25.STABLE_APIS Fall25.INITIAL_APIS
            RootCollation.localeCompare (Some "fraud"%string)
            (Some "auth-fraud"%string) (Some "stable"%string) limit offset)
       <= PaginatedResponse.total
            (searchApis Fall25.STABLE_APIS Fall25.INITIAL_APIS
               RootCollation.localeCompare (Some "fraud"%string) None None
               limit' offset').
Proof.
  split; [now left|]. split; [now right|]. split; [now right|].
  exact (proj2 (searchApis_filters_narrow
                  Fall25.STABLE_APIS Fall25.INITIAL_APIS
                  RootCollation.localeCompare
                  (Some "fraud"%string) (Some "auth-fraud"%string)
                  (Some "stable"%string) (Some "fraud"%string) None None
                  (or_introl eq_refl) (or_intror eq_refl)
                  (or_intror eq_refl))).
Defined.

Section QueryCaseFacts.

Lemma searchScore_lowercase (api : Api) (q q' : string) :
  JS.toLowerCase q = JS.toLowerCase q' ->
  searchScore api q = searchScore api q'.
Proof. intros H. unfold searchScore. now rewrite H. Qed.

Lemma combined_ext (stable : list CamaraApi.t) (initial : list InitialApi.t)
    (cmp : string -> string -> Z) (q q' c s : option string) :
  (forall a, keepStable q c s a = keepStable q' c s a) ->
  (forall a, keepInitial q c s a = keepInitial q' c s a) ->
  (forall api, scoreOf q api = scoreOf q' api) ->
  combined stable initial cmp q c s = combined stable initial cmp q' c s.
Proof.
  intros Hs Hi Hsc. unfold combined, candidates, stableResults, initialResults.
  rewrite (filter_ext _ _ Hs), (filter_ext _ _ Hi).
  f_equal. f_equal; (f_equal; apply map_ext; intros a; now rewrite Hsc).
Qed.

Lemma searchApis_of_combined (stable : list CamaraApi.t)
    (initial : list InitialApi.t) (cmp : string -> string -> Z)
    (q q' c s : option string) (limit offset : option Z) :
  combined stable initial cmp q c s = combined stable initial cmp q' c s ->
  searchApis stable initial cmp q c s limit offset
  = searchApis stable initial cmp q' c s limit offset.
Proof. intros H. unfold searchApis, paged. now rewrite H. Qed.

End QueryCaseFacts.

(** X13.  The query is matched case-insensitively throughout: two queries
    with the same lower-casing give every record the same score and every
    search the same response; and an empty query is the same as no
    query. *)
Theorem searchApis_query_case_insensitive
    (STABLE_APIS : list CamaraApi.t) (INITIAL_APIS : list InitialApi.t)
    (localeCompare : string -> string -> Z) (q q' : string) :
  JS.toLowerCase q = JS.toLowerCase q' ->
  (forall api, searchScore api q = searchScore api q')
  /\ (forall category status limit offset,
        searchApis STABLE_APIS INITIAL_APIS localeCompare
          (Some q) category status limit offset
        = searchApis STABLE_APIS INITIAL_APIS localeCompare
            (Some q') category status limit offset)
  /\ (forall category status limit offset,
        searchApis STABLE_APIS INITIAL_APIS localeCompare
          (Some ""%string) category status limit offset
        = searchApis STABLE_APIS INITIAL_APIS localeCompare
            None category status limit offset).
Proof.
  intros Hq.
  assert (Hscore : forall api, searchScore api q = searchScore api q')
    by (intros api; now apply searchScore_lowercase).
  assert (Hempty : String.eqb q "" = String.eqb q' "").
  { destruct (String.eqb_spec q ""), (String.eqb_spec q' ""); trivial.
    - subst q. simpl in Hq. symmetry in Hq.
      apply (proj1 (toLowerCase_empty q')) in Hq. contradiction.
    - subst q'. simpl in Hq.
      apply (proj1 (toLowerCase_empty q)) in Hq. contradiction. }
  split; [exact Hscore|]. split.
  - intros category status limit offset.
    apply searchApis_of_combined, combined_ext.
    + intros a. unfold keepStable, JS.andAlso. now rewrite Hempty, Hscore.
    + intros a. unfold keepInitial, JS.andAlso. now rewrite Hempty, Hscore.
    + intros api. unfold scoreOf. now rewrite Hempty, Hscore.
  - intros category status limit offset.
    apply searchApis_of_combined, combined_ext; reflexivity.
Qed.

Lemma searchApis_query_case_insensitive_witness :
  JS.toLowerCase "SIM" = JS.toLowerCase "sim"
  /\ forall api, searchScore api "SIM" = searchScore api "sim".
Proof.
  split; [reflexivity|].
  exact (proj1 (searchApis_query_case_insensitive
                  Fall25.STABLE_APIS Fall25.INITIAL_APIS
                  RootCollation.localeCompare "SIM" "sim" eq_refl)).
Defined.

(** X14.  The relevance score is bounded: it lies between 0 and 32, and a
    positive score is at least 2; for an initial record, which has neither
    industries nor use cases, it is at most 26 and a positive score is at
    least 3. *)
Theorem searchScore_bounds (api : Api) (query : string) :
  0 <= searchScore api query <= 32
  /\ (searchScore api query = 0 \/ 2 <= searchScore api query)
  /\ match api with
     | OfStable _ => True
     | OfInitial _ =>
         searchScore api query <= 26
         /\ (searchScore api query = 0 \/ 3 <= searchScore api query)
     end.
Proof.
  rewrite searchScore_unfold; cbv zeta.
  destruct api as [a|a];
    repeat match goal with |- context [if ?b then _ else _] => destruct b end;
    repeat split; lia.
Qed.

(* ================================================================== *)
(** * Properties of the markdown rendering of a search *)
(* ================================================================== *)

Section MarkdownFacts.
Local Open Scope string_scope.

Lemma join_cons (sep x : string) (l : list string) :
  JS.join sep (x :: l)
  = x ++ match l with
         | [] => ""
         | _ :: _ => sep ++ JS.join sep l
         end.
Proof.
  destruct l as [|y l]; simpl; [now rewrite append_empty_r | reflexivity].
Qed.

Lemma combined_empty (stable : list CamaraApi.t) (initial : list InitialApi.t)
    (cmp : string -> string -> Z) (query category status : option string) :
  length (combined stable initial cmp query category status) = 0%nat
  <-> forall api, ~ kept stable initial query category status api.
Proof.
  split.
  - intros Hlen api Hk.
    assert (Hin : In {| score := scoreOf query api; result := project api |}
                    (combined stable initial cmp query category status))
      by (apply combined_In; now exists api).
    destruct (combined stable initial cmp query category status);
      [destruct Hin | discriminate].
  - intros Hno.
    destruct (combined stable initial cmp query category status) as [|r l] eqn:E;
      [reflexivity|].
    assert (Hin : In r (combined stable initial cmp query category status))
      by (rewrite E; now left).
    apply combined_In in Hin as [api [Hk _]]. now apply Hno in Hk.
Qed.

End MarkdownFacts.

(** X15.  The markdown of a search response.  It is the fixed
    "No CAMARA APIs found" message exactly when no record passes the
    filters, whatever the limit and offset; otherwise it opens with the
    header that reports [total], also for a page past the end.  The
    pagination hint is the last line exactly when [has_more] is set, and
    it then names [offset + count] as the offset to continue from. *)
Theorem formatApiSearchMarkdown_of_search
    (STABLE_APIS : list CamaraApi.t) (INITIAL_APIS : list InitialApi.t)
    (localeCompare : string -> string -> Z)
    (query category status : option string) (limit offset : option Z) :
  let r := searchApis STABLE_APIS INITIAL_APIS localeCompare
             query category status limit offset in
  let header := ("## CAMARA API Search Results ("
                 ++ numberToString (PaginatedResponse.total r) ++ " found)"
                 ++ newline)%string in
  (formatApiSearchMarkdown r
   = "No CAMARA APIs found matching your query."%string
   <-> forall api,
         ~ kept STABLE_APIS INITIAL_APIS query category status api)
  /\ ((exists api, kept STABLE_APIS INITIAL_APIS query category status api) ->
      exists rest, formatApiSearchMarkdown r = (header ++ rest)%string)
  /\ formatApiSearchLines r
     = [header]
       ++ flat_map searchResultLines (PaginatedResponse.items r)
       ++ (if PaginatedResponse.has_more r
           then [("*Showing "
                  ++ numberToString (PaginatedResponse.count r)
                  ++ " of " ++ numberToString (PaginatedResponse.total r)
                  ++ " results. Use offset="
                  ++ numberToString
                       (JS.orDefault 0 offset + PaginatedResponse.count r)
                  ++ " for more.*")%string]
           else []).
Proof.
  intros r header.
  assert (Htotal : PaginatedResponse.total r = 0
                   <-> forall api,
                         ~ kept STABLE_APIS INITIAL_APIS query category
                             status api).
  { rewrite <- (combined_empty STABLE_APIS INITIAL_APIS localeCompare).
    subst r. unfold searchApis. cbn [PaginatedResponse.total]. lia. }
  assert (Hfmt : PaginatedResponse.total r <> 0 ->
            exists rest, formatApiSearchMarkdown r = (header ++ rest)%string).
  { intros Hne. unfold formatApiSearchMarkdown.
    destruct (Z.eqb_spec (PaginatedResponse.total r) 0); [contradiction|].
    unfold formatApiSearchLines. cbn [app]. fold header.
    rewrite join_cons. eexists. reflexivity. }
  split; [|split].
  - rewrite <- Htotal. split.
    + intros Hmsg.
      destruct (Z.eq_dec (PaginatedResponse.total r) 0) as [H0|Hne];
        [exact H0|].
      destruct (Hfmt Hne) as [rest Hrest]. rewrite Hrest in Hmsg.
      subst header. discriminate.
    + intros H0. unfold formatApiSearchMarkdown. now rewrite H0.
  - intros [api Hk]. apply Hfmt. intros H0.
    exact (proj1 Htotal H0 api Hk).
  - unfold formatApiSearchLines. fold header. do 2 f_equal.
    subst r. unfold searchApis.
    cbn [PaginatedResponse.has_more PaginatedResponse.next_offset
         PaginatedResponse.count PaginatedResponse.total].
    destruct (_ <? _); reflexivity.
Qed.
